(** * reddit-AI-replier: a shallow embedding of the reply pipeline

    The development follows the Python sources module by module:
    - [state.py]      the persistent state store ([State]);
    - [monitor.py]    the comment source ([CommentMonitor]);
    - [replier.py]    the reply poster ([Replier]);
    - [reddit_bot.py] one cycle ([run_once]) and the run loop of [main].

    Python objects that are mutated in place (the [State] dictionary, the
    rotation index of the [Replier]) live in one record, [World], threaded by a
    state-and-exception monad in which the effects of a computation that raises
    are kept, as in Python.  Everything the program only observes (the
    platform's answers, the language model) is an oracle of the environment
    record [Env].  Time is the simulated clock [now], moved by [time.sleep].

    The state file is modelled twice.  The functions of state.py and of
    reddit_bot.py are first given on a disk that takes every write; the
    module [Disk] gives them again on a disk that answers each write, with
    the state file as [State._load] finds it.  The two agree when no write
    fails. *)

From Stdlib Require Import ZArith List String Ascii Bool Arith Lia.
From Stdlib Require Lists.Finite.
From Stdlib Require Import DecimalString Sorted.
Import ListNotations.

Set Implicit Arguments.

(* ===================================================================== *)
(** * Part I: definitions                                                 *)
(* ===================================================================== *)

(** ** Python [str]

    A Python string is embedded as a [string]; its characters are read as the
    code points U+0000..U+00FF, and strings with code points beyond U+00FF
    are not modelled.  The text functions work on the list of characters. *)

Definition chars (s : string) : list ascii := list_ascii_of_string s.

Definition code (c : ascii) : N := N_of_ascii c.

Definition in_range (lo hi : N) (c : ascii) : bool :=
  ((lo <=? code c) && (code c <=? hi))%N.

(** [\d] on a [str] pattern: the decimal digits. *)
Definition isdigit (c : ascii) : bool := in_range 48 57 c.

(** [\s] on a [str] pattern: TAB LF VT FF CR, FS GS RS US, space, NEL and
    NBSP. *)
Definition isspace (c : ascii) : bool :=
  in_range 9 13 c || in_range 28 32 c || (code c =? 133)%N || (code c =? 160)%N.

(** [str.lower] on one character: A-Z and the Latin-1 capitals (U+00C0 to
    U+00DE, the multiplication sign apart) move up by 32. *)
Definition lower_char (c : ascii) : ascii :=
  if in_range 65 90 c || (in_range 192 222 c && negb (code c =? 215)%N)
  then ascii_of_N (code c + 32)
  else c.

Definition lower (s : list ascii) : list ascii := map lower_char s.

(** [w] is a prefix of [s] ([s.startswith(w)]). *)
Fixpoint startswith (w s : list ascii) : bool :=
  match w, s with
  | [], _ => true
  | a :: w', b :: s' => Ascii.eqb a b && startswith w' s'
  | _ :: _, [] => false
  end.

(** [w in s] on strings: [w] occurs in [s] as a substring. *)
Fixpoint contains (w s : list ascii) : bool :=
  startswith w s ||
  match s with
  | [] => false
  | _ :: s' => contains w s'
  end.

(** [int(ds)] on a string of decimal digits.  (CPython bounds the length of
    the strings that [int] converts, 4300 digits unless configured otherwise,
    and raises [ValueError] beyond; numbers of that length are not
    modelled.) *)
Definition digit_value (c : ascii) : Z := Z.of_N (code c) - 48.

Definition int (ds : list ascii) : Z :=
  fold_left (fun acc c => 10 * acc + digit_value c)%Z ds 0%Z.

(** ** The fragment of [re] that [replier.py] uses

    A backtracking matcher in continuation-passing style: quantifiers are
    greedy and give characters back one at a time, an alternation tries its
    branches from left to right, a group records the text it matched, and
    [search] tries every start position from left to right. *)

Inductive regex : Type :=
| Lit (w : list ascii)
| Plus (p : ascii -> bool)
| Star (p : ascii -> bool)
| Cat (r1 r2 : regex)
| Alt (r1 r2 : regex)
| Grp (r : regex).

Definition groups := list (list ascii).

(** A continuation receives the text just matched, the rest of the input and
    the groups closed so far. *)
Definition kont := list ascii -> list ascii -> groups -> option groups.

Fixpoint greedy (p : ascii -> bool) (s taken : list ascii) (gs : groups)
  (k : kont) : option groups :=
  match s with
  | c :: t =>
      if p c then
        match greedy p t (taken ++ [c]) gs k with
        | Some r => Some r
        | None => k taken s gs
        end
      else k taken s gs
  | [] => k taken [] gs
  end.

Fixpoint rmatch (r : regex) (s : list ascii) (gs : groups) (k : kont)
  : option groups :=
  match r with
  | Lit w => if startswith w s then k w (skipn (List.length w) s) gs else None
  | Star p => greedy p s [] gs k
  | Plus p =>
      match s with
      | c :: t => if p c then greedy p t [c] gs k else None
      | [] => None
      end
  | Cat r1 r2 =>
      rmatch r1 s gs (fun m1 s1 g1 =>
      rmatch r2 s1 g1 (fun m2 s2 g2 => k (m1 ++ m2) s2 g2))
  | Alt r1 r2 =>
      match rmatch r1 s gs k with
      | Some g => Some g
      | None => rmatch r2 s gs k
      end
  | Grp r1 => rmatch r1 s gs (fun m s' g => k m s' (g ++ [m]))
  end.

Definition match_here (r : regex) (s : list ascii) : option groups :=
  rmatch r s [] (fun _ _ g => Some g).

(** [re.search(r, s)]: the groups of the leftmost match. *)
Fixpoint search (r : regex) (s : list ascii) : option groups :=
  match match_here r s with
  | Some g => Some g
  | None =>
      match s with
      | [] => None
      | _ :: t => search r t
      end
  end.

Definition minute : list ascii := chars "minute".
Definition second : list ascii := chars "second".

(** [r"(\d+)\s*(minute|second)"] *)
Definition wait_pattern : regex :=
  Cat (Grp (Plus isdigit)) (Cat (Star isspace) (Grp (Alt (Lit minute) (Lit second)))).

(** [Replier._parse_wait_time] (replier.py). *)
Definition _parse_wait_time (message : string) : Z :=
  match search wait_pattern (lower (chars message)) with
  | Some [value; unit_] =>
      if contains minute unit_ then (int value * 60)%Z else int value
  | _ => 60%Z
  end.

(** ** Platform data *)

(** A [praw.Reddit] session, named by its account. *)
Definition Reddit := string.

(** A [praw.models.Comment], with the fields the pipeline reads. *)
Record Comment : Type := {
  id : string;
  body : string;
  created_utc : Z;
  subreddit : string;
  submission_title : option string
}.

(** An entry of [RedditAPIException.items]. *)
Record api_item : Type := {
  error_type : string;
  message : string
}.

(** The exceptions of class [Exception] that reach the pipeline. *)
Inductive exn : Type :=
| Forbidden                                   (* prawcore.exceptions.Forbidden *)
| RedditAPIException (items : list api_item)  (* praw.exceptions.RedditAPIException *)
| RequestException                            (* any other platform or network failure *)
| GenerationError                             (* raised by the language-model client *)
| ValueError
| IndexError
| OSError.                                    (* a failed write of the state file *)

(** A lazy listing of the platform: it produces comments one at a time and
    may fail while it is being read. *)
Inductive listing : Type :=
| Done
| Item (c : Comment) (rest : listing)
| Broken (e : exn).

(** ** State of the program *)

(** [State._data]: the dictionary of state.py; a key may be absent from a
    loaded file. *)
Record data : Type := {
  data_last_run_time : option Z;
  data_replied_ids : option (list string)
}.

Inductive event : Type :=
| EvFetch (target : string) (since : Z)       (* a listing is requested *)
| EvGenerate (comment_id : string)            (* llm.generate_reply *)
| EvMe (instance : Reddit)                    (* instance.user.me() *)
| EvReply (comment_id : string) (text : string)  (* comment.reply(text) *)
| EvSleep (seconds : Z)                       (* time.sleep *)
| EvSave (d : data)                           (* json.dump to the state file *)
| EvSaveFailed (torn : bool).                 (* a write of the state file that raised,
                                                 [torn]: after open had emptied the file *)

Record World : Type := {
  now : Z;                  (* the clock read by time.time() *)
  trace : list event;       (* the effects so far, oldest first *)
  fetches : nat;            (* listings requested so far *)
  generations : nat;        (* calls of llm.generate_reply so far *)
  replies : nat;            (* calls of comment.reply so far *)
  _current_index : nat;     (* Replier._current_index *)
  _data : data              (* State._data *)
}.

(** What the program cannot decide: the answers of the platform and of the
    language model, each indexed by the number of earlier calls. *)
Record Env : Type := {
  redditor_comments_new : string -> nat -> listing;
  subreddit_comments : string -> nat -> listing;
  llm_generate : nat -> Comment -> option string;   (* [None]: raises *)
  user_me : Reddit -> option string;                (* [None]: raises *)
  comment_reply : nat -> option exn                 (* [None]: acknowledged *)
}.

(** ** The monad: state, and exceptions that keep the state *)

Inductive outcome (A : Type) : Type :=
| Ret (a : A)
| Raise (e : exn).

Arguments Raise {A} e.

Definition M (A : Type) : Type := World -> outcome A * World.

Definition ret {A} (a : A) : M A := fun w => (Ret a, w).

Definition raise {A} (e : exn) : M A := fun w => (Raise e, w).

Definition bind {A B} (c : M A) (k : A -> M B) : M B :=
  fun w =>
    match c w with
    | (Ret a, w') => k a w'
    | (Raise e, w') => (Raise e, w')
    end.

(** [try: c except Exception as e: h e] *)
Definition try_ {A} (c : M A) (h : exn -> M A) : M A :=
  fun w =>
    match c w with
    | (Ret a, w') => (Ret a, w')
    | (Raise e, w') => h e w'
    end.

Declare Scope monad_scope.
Delimit Scope monad_scope with monad.
Notation "x <- c ;; k" := (bind c (fun x => k))
  (at level 61, c at next level, right associativity) : monad_scope.
Notation "c ;;; k" := (bind c (fun _ => k))
  (at level 61, right associativity) : monad_scope.
Local Open Scope monad_scope.

Definition get {A} (f : World -> A) : M A := fun w => (Ret (f w), w).

Definition modify (f : World -> World) : M unit := fun w => (Ret tt, f w).

Definition emit (e : event) (w : World) : World :=
  {| now := now w; trace := trace w ++ [e]; fetches := fetches w;
     generations := generations w; replies := replies w;
     _current_index := _current_index w; _data := _data w |}.

Definition advance (seconds : Z) (w : World) : World :=
  {| now := (now w + seconds)%Z; trace := trace w; fetches := fetches w;
     generations := generations w; replies := replies w;
     _current_index := _current_index w; _data := _data w |}.

Definition count_fetch (w : World) : World :=
  {| now := now w; trace := trace w; fetches := S (fetches w);
     generations := generations w; replies := replies w;
     _current_index := _current_index w; _data := _data w |}.

Definition count_generation (w : World) : World :=
  {| now := now w; trace := trace w; fetches := fetches w;
     generations := S (generations w); replies := replies w;
     _current_index := _current_index w; _data := _data w |}.

Definition count_reply (w : World) : World :=
  {| now := now w; trace := trace w; fetches := fetches w;
     generations := generations w; replies := S (replies w);
     _current_index := _current_index w; _data := _data w |}.

Definition set_index (i : nat) (w : World) : World :=
  {| now := now w; trace := trace w; fetches := fetches w;
     generations := generations w; replies := replies w;
     _current_index := i; _data := _data w |}.

Definition set_data (d : data) (w : World) : World :=
  {| now := now w; trace := trace w; fetches := fetches w;
     generations := generations w; replies := replies w;
     _current_index := _current_index w; _data := d |}.

(** [time.sleep]: a negative length raises [ValueError]; the clock moves on
    by the length of the sleep.  (Lengths too large for the system's time
    type are not modelled.) *)
Definition sleep (seconds : Z) : M unit :=
  if (seconds <? 0)%Z then raise ValueError
  else modify (fun w => advance seconds (emit (EvSleep seconds) w)).

(** ** state.py *)

(** The state that [_load] returns when it finds no file, or one that it
    cannot use. *)
Definition fresh : data :=
  {| data_last_run_time := Some 0%Z; data_replied_ids := Some [] |}.

(** [State._load], on what the state file decodes to: [file] is the JSON
    object that the file holds, [None] when the file is missing, cannot be
    read ([IOError]) or holds no JSON document ([JSONDecodeError]).  The file
    itself, with the contents on which [_load] raises, is the [state_file] of
    the module [Disk] below. *)
Definition _load (file : option data) : data :=
  match file with
  | Some d => d
  | None => fresh
  end.

(** [State.save], on a disk that takes the write.  A write that raises is
    modelled by [Disk.save] below. *)
Definition save : M unit := modify (fun w => emit (EvSave (_data w)) w).

(** [self._data.get("last_run_time", 0.0)] *)
Definition last_run_time : M Z :=
  get (fun w => match data_last_run_time (_data w) with
                | Some t => t
                | None => 0%Z
                end).

(** [State.update_run_time]: the clock is read here. *)
Definition update_run_time : M unit :=
  modify (fun w =>
    set_data {| data_last_run_time := Some (now w);
                data_replied_ids := data_replied_ids (_data w) |} w) ;;;
  save.

(** [x in l] on a list of strings. *)
Definition mem (x : string) (l : list string) : bool := existsb (String.eqb x) l.

(** [self._data.get("replied_ids", [])] *)
Definition replied_ids (d : data) : list string :=
  match data_replied_ids d with
  | Some l => l
  | None => []
  end.

(** [State.is_replied] *)
Definition is_replied (comment_id : string) : M bool :=
  get (fun w => mem comment_id (replied_ids (_data w))).

(** [l[-n:]] for a positive [n]. *)
Definition last_n {A} (n : nat) (l : list A) : list A :=
  skipn (List.length l - n) l.

(** [State.mark_replied] *)
Definition mark_replied (comment_id : string) : M unit :=
  (* replied = self._data.setdefault("replied_ids", []) *)
  replied <- get (fun w => replied_ids (_data w)) ;;
  modify (fun w =>
    set_data {| data_last_run_time := data_last_run_time (_data w);
                data_replied_ids := Some replied |} w) ;;;
  if mem comment_id replied then ret tt
  else
    let replied := replied ++ [comment_id] in
    modify (fun w =>
      set_data {| data_last_run_time := data_last_run_time (_data w);
                  data_replied_ids :=
                    Some (if 1000 <? List.length replied
                          then last_n 1000 replied else replied) |} w) ;;;
    save.

(** ** monitor.py *)

(** [limit=n] on a listing: it ends after [n] comments, and what the
    platform's listing holds or does behind them is never read. *)
Fixpoint limit (n : nat) (l : listing) : listing :=
  match n, l with
  | O, _ => Done
  | S n', Item c rest => Item c (limit n' rest)
  | S _, _ => l
  end.

(** What a generator did when it was run to its end: the comments it
    yielded, and the exception that ended it, if one did. *)
Definition generator : Type := (list Comment * option exn)%type.

(** The loop of [get_user_comments]. *)
Fixpoint user_loop (l : listing) (since : Z) : generator :=
  match l with
  | Done => ([], None)
  | Broken e => ([], Some e)
  | Item comment rest =>
      if (created_utc comment >? since)%Z then
        let (ys, fin) := user_loop rest since in (comment :: ys, fin)
      else ([], None)                                            (* break *)
  end.

(** [CommentMonitor._matches_keywords] *)
Definition _matches_keywords (text : string) (keywords : list string) : bool :=
  let text_lower := lower (chars text) in
  existsb (fun kw => contains (lower (chars kw)) text_lower) keywords.

(** Truth value of [keywords] ([None] or a list). *)
Definition truthy (keywords : option (list string)) : bool :=
  match keywords with
  | Some (_ :: _) => true
  | _ => false
  end.

(** The loop of [get_subreddit_comments]. *)
Fixpoint subreddit_loop (l : listing) (since : Z)
  (keywords : option (list string)) : generator :=
  match l with
  | Done => ([], None)
  | Broken e => ([], Some e)
  | Item comment rest =>
      let (ys, fin) := subreddit_loop rest since keywords in
      if (created_utc comment <=? since)%Z then (ys, fin)          (* continue *)
      else if truthy keywords &&
              negb (_matches_keywords (body comment)
                      (match keywords with Some k => k | None => [] end))
      then (ys, fin)                                             (* continue *)
      else (comment :: ys, fin)
  end.

(** [CommentMonitor.get_user_comments], run to its end. *)
Definition get_user_comments (env : Env) (username : string) (since : Z)
  : M generator :=
  n <- get fetches ;;
  modify (fun w => count_fetch (emit (EvFetch username since) w)) ;;;
  ret (user_loop (limit 100 (redditor_comments_new env username n)) since).

(** [CommentMonitor.get_subreddit_comments], run to its end. *)
Definition get_subreddit_comments (env : Env) (subreddit_name : string)
  (since : Z) (keywords : option (list string)) : M generator :=
  n <- get fetches ;;
  modify (fun w => count_fetch (emit (EvFetch subreddit_name since) w)) ;;;
  ret (subreddit_loop (limit 100 (subreddit_comments env subreddit_name n))
         since keywords).

(** [list(g)]: the comments yielded, unless the generator raised. *)
Definition list_ (g : M generator) : M (list Comment) :=
  r <- g ;;
  match snd r with
  | None => ret (fst r)
  | Some e => raise e
  end.

(** ** replier.py *)

(** The fields of a [Replier] set by its constructor; [_current_index] is
    mutable and lives in the [World]. *)
Record Replier : Type := {
  instances : list Reddit;
  reply_delay : Z
}.

(** [Replier._next_instance]: indexing an empty pool raises [IndexError]. *)
Definition _next_instance (r : Replier) : M Reddit :=
  i <- get _current_index ;;
  match nth_error (instances r) i with
  | None => raise IndexError
  | Some instance =>
      modify (set_index ((i + 1) mod List.length (instances r))) ;;;
      ret instance
  end.

(** [Replier._get_username] *)
Definition _get_username (env : Env) (instance : Reddit) : M string :=
  modify (emit (EvMe instance)) ;;;
  match user_me env instance with
  | Some name => ret name
  | None => ret "unknown"%string
  end.

(** [comment.reply(reply_text)] *)
Definition reply (env : Env) (comment : Comment) (reply_text : string) : M unit :=
  n <- get replies ;;
  modify (fun w => count_reply (emit (EvReply (id comment) reply_text) w)) ;;;
  match comment_reply env n with
  | None => ret tt
  | Some e => raise e
  end.

(** The inner loop of [_handle_rate_limit], [for item in exception.items]:
    [Some b] when the function returned [b], [None] when the loop ran to its
    end. *)
Fixpoint retry_items (env : Env) (comment : Comment) (reply_text : string)
  (items : list api_item) : M (option bool) :=
  match items with
  | [] => ret None
  | item :: rest =>
      if String.eqb (error_type item) "RATELIMIT" then
        let wait_time := _parse_wait_time (message item) in
        sleep wait_time ;;;
        try_ (reply env comment reply_text ;;; ret (Some true))
             (fun e => match e with
                       | RedditAPIException _ =>
                           retry_items env comment reply_text rest   (* continue *)
                       | _ => raise e
                       end)
      else retry_items env comment reply_text rest
  end.

(** The outer loop, [for attempt in range(max_retries)]. *)
Fixpoint retry_rounds (env : Env) (comment : Comment) (reply_text : string)
  (items : list api_item) (rounds : nat) : M bool :=
  match rounds with
  | O => ret false
  | S rounds' =>
      r <- retry_items env comment reply_text items ;;
      match r with
      | Some b => ret b
      | None => retry_rounds env comment reply_text items rounds'
      end
  end.

(** [Replier._handle_rate_limit]; [exception_items] is [exception.items]. *)
Definition _handle_rate_limit (env : Env) (exception_items : list api_item)
  (comment : Comment) (reply_text : string) (username : string)
  (max_retries : nat) : M bool :=
  retry_rounds env comment reply_text exception_items max_retries.

(** [Replier.post_reply] *)
Definition post_reply (env : Env) (r : Replier) (comment : Comment)
  (reply_text : string) : M bool :=
  instance <- _next_instance r ;;
  username <- _get_username env instance ;;
  try_ (reply env comment reply_text ;;;
        sleep (reply_delay r) ;;;
        ret true)
       (fun e => match e with
                 | Forbidden => ret false
                 | RedditAPIException items =>
                     _handle_rate_limit env items comment reply_text username 3
                 | _ => ret false
                 end).

(** ** reddit_bot.py *)

Record Config : Type := {
  mode : string;
  target : string;
  keywords : list string;
  sleep_duration : Z;
  max_replies : Z;
  loop : bool
}.

(** [config.keywords or None] *)
Definition or_none (keywords : list string) : option (list string) :=
  match keywords with
  | [] => None
  | _ => Some keywords
  end.

(** [llm.generate_reply] *)
Definition generate_reply (env : Env) (comment : Comment) : M string :=
  n <- get generations ;;
  modify (fun w => count_generation (emit (EvGenerate (id comment)) w)) ;;;
  match llm_generate env n comment with
  | Some text => ret text
  | None => raise GenerationError
  end.

(** The [try] block of [run_once] for one comment: what it adds to
    [replies_posted].  An exception of the block is logged and the loop goes
    on. *)
Definition attempt (env : Env) (replier : Replier) (comment : Comment) : M Z :=
  try_ (reply_text <- generate_reply env comment ;;
        ok <- post_reply env replier comment reply_text ;;
        if ok then mark_replied (id comment) ;;; ret 1%Z
        else ret 0%Z)
       (fun _ => ret 0%Z).

(** The loop of [run_once] over the fetched comments. *)
Fixpoint reply_loop (env : Env) (config : Config) (replier : Replier)
  (comments : list Comment) (replies_posted : Z) : M Z :=
  match comments with
  | [] => ret replies_posted
  | comment :: rest =>
      if (replies_posted >=? max_replies config)%Z then ret replies_posted  (* break *)
      else
        seen <- is_replied (id comment) ;;
        if seen then reply_loop env config replier rest replies_posted  (* continue *)
        else
          posted <- attempt env replier comment ;;
          reply_loop env config replier rest (replies_posted + posted)%Z
  end.

(** [run_once] *)
Definition run_once (env : Env) (config : Config) (replier : Replier) : M Z :=
  since <- last_run_time ;;
  comments <-
    (if String.eqb (mode config) "user"
     then list_ (get_user_comments env (target config) since)
     else list_ (get_subreddit_comments env (target config) since
                   (or_none (keywords config)))) ;;
  replies_posted <- reply_loop env config replier comments 0%Z ;;
  update_run_time ;;;
  ret replies_posted.

(** How the run loop of [main] ends: it falls out of the loop, an exception
    leaves it uncaught (only [KeyboardInterrupt] is handled), or it is still
    looping when the fuel is spent. *)
Inductive ending : Type :=
| Finished
| Uncaught (e : exn)
| Looping.

(** The run loop of [main], [while True: ...], with the components already
    built; [fuel] bounds the number of cycles. *)
Fixpoint main (env : Env) (config : Config) (replier : Replier) (fuel : nat)
  (w : World) : ending * World :=
  match fuel with
  | O => (Looping, w)
  | S fuel' =>
      match run_once env config replier w with
      | (Raise e, w') => (Uncaught e, w')
      | (Ret _, w') =>
          if negb (loop config) then (Finished, w')
          else
            match sleep (sleep_duration config) w' with
            | (Raise e, w'') => (Uncaught e, w'')
            | (Ret _, w'') => main env config replier fuel' w''
            end
      end
  end.

(** The process right after start-up, with the state loaded from [file]. *)
Definition boot (file : option data) (clock : Z) : World :=
  {| now := clock; trace := []; fetches := 0; generations := 0; replies := 0;
     _current_index := 0; _data := _load file |}.

(** ** The state file on a disk that can fail

    The definitions of state.py above read the state file through what it
    decodes to, and take every write of it to succeed.  The module [Disk]
    gives up both: the file is a [state_file], with the contents on which
    [_load] raises, and every attempt to write it is answered by the disk.
    Its functions are those of state.py and of reddit_bot.py once more, with
    [save] replaced throughout; on a disk that takes every write they are the
    functions above. *)

(** The state file, as [State._load] finds it.  (A JSON document that is not
    an object with the two keys of [data] is not modelled: [json.load] returns
    it as it is, and the program never writes one.) *)
Inductive state_file : Type :=
| Missing                   (* [filepath.exists()] is false *)
| Unreadable                (* [open] or the read raises [IOError] *)
| NotText                   (* bytes that do not decode: [UnicodeDecodeError] *)
| NotJSON                   (* text that is no JSON document: [JSONDecodeError] *)
| Object (d : data).        (* the JSON object [d] *)

(** How a write of the state file ends.  [open(filepath, "w")] empties the
    file before [json.dump] writes to it: a write that raises leaves the file
    as it was when [open] raised, and without a complete JSON document when
    the dump raised. *)
Inductive write_result : Type :=
| Written
| Refused                   (* [open] raised: the file is as it was *)
| Torn.                     (* the dump raised: the file holds a part of it *)

Definition is_write (e : event) : bool :=
  match e with
  | EvSave _ | EvSaveFailed _ => true
  | _ => false
  end.

(** The attempts to write the state file so far. *)
Definition writes (tr : list event) : nat := List.length (filter is_write tr).

Module Disk.

(** [State._load]: [IOError] and [JSONDecodeError] are handled; a
    [UnicodeDecodeError], which is a [ValueError], is not. *)
Definition _load (f : state_file) : outcome data :=
  match f with
  | Missing => Ret fresh
  | Unreadable => Ret fresh
  | NotJSON => Ret fresh
  | NotText => Raise ValueError
  | Object d => Ret d
  end.

(** [State.save]; [disk] answers the attempts to write, in order. *)
Definition save (disk : nat -> write_result) : M unit :=
  n <- get (fun w => writes (trace w)) ;;
  match disk n with
  | Written => modify (fun w => emit (EvSave (_data w)) w)
  | Refused => modify (emit (EvSaveFailed false)) ;;; raise OSError
  | Torn => modify (emit (EvSaveFailed true)) ;;; raise OSError
  end.

(** [State.update_run_time] *)
Definition update_run_time (disk : nat -> write_result) : M unit :=
  modify (fun w =>
    set_data {| data_last_run_time := Some (now w);
                data_replied_ids := data_replied_ids (_data w) |} w) ;;;
  save disk.

(** [State.mark_replied] *)
Definition mark_replied (disk : nat -> write_result) (comment_id : string)
  : M unit :=
  replied <- get (fun w => replied_ids (_data w)) ;;
  modify (fun w =>
    set_data {| data_last_run_time := data_last_run_time (_data w);
                data_replied_ids := Some replied |} w) ;;;
  if mem comment_id replied then ret tt
  else
    let replied := replied ++ [comment_id] in
    modify (fun w =>
      set_data {| data_last_run_time := data_last_run_time (_data w);
                  data_replied_ids :=
                    Some (if 1000 <? List.length replied
                          then last_n 1000 replied else replied) |} w) ;;;
    save disk.

(** The [try] block of [run_once] for one comment. *)
Definition attempt (disk : nat -> write_result) (env : Env) (replier : Replier)
  (comment : Comment) : M Z :=
  try_ (reply_text <- generate_reply env comment ;;
        ok <- post_reply env replier comment reply_text ;;
        if ok then mark_replied disk (id comment) ;;; ret 1%Z
        else ret 0%Z)
       (fun _ => ret 0%Z).

(** The loop of [run_once] over the fetched comments. *)
Fixpoint reply_loop (disk : nat -> write_result) (env : Env) (config : Config)
  (replier : Replier) (comments : list Comment) (replies_posted : Z) : M Z :=
  match comments with
  | [] => ret replies_posted
  | comment :: rest =>
      if (replies_posted >=? max_replies config)%Z then ret replies_posted
      else
        seen <- is_replied (id comment) ;;
        if seen then reply_loop disk env config replier rest replies_posted
        else
          posted <- attempt disk env replier comment ;;
          reply_loop disk env config replier rest (replies_posted + posted)%Z
  end.

(** [run_once] *)
Definition run_once (disk : nat -> write_result) (env : Env) (config : Config)
  (replier : Replier) : M Z :=
  since <- last_run_time ;;
  comments <-
    (if String.eqb (mode config) "user"
     then list_ (get_user_comments env (target config) since)
     else list_ (get_subreddit_comments env (target config) since
                   (or_none (keywords config)))) ;;
  replies_posted <- reply_loop disk env config replier comments 0%Z ;;
  update_run_time disk ;;;
  ret replies_posted.

(** The run loop of [main]. *)
Fixpoint main (disk : nat -> write_result) (env : Env) (config : Config)
  (replier : Replier) (fuel : nat) (w : World) : ending * World :=
  match fuel with
  | O => (Looping, w)
  | S fuel' =>
      match run_once disk env config replier w with
      | (Raise e, w') => (Uncaught e, w')
      | (Ret _, w') =>
          if negb (loop config) then (Finished, w')
          else
            match sleep (sleep_duration config) w' with
            | (Raise e, w'') => (Uncaught e, w'')
            | (Ret _, w'') => main disk env config replier fuel' w''
            end
      end
  end.

(** The process right after start-up on the state file [f]; [State()] raises
    what [_load] raises. *)
Definition boot (f : state_file) (clock : Z) : outcome World :=
  match _load f with
  | Ret d =>
      Ret {| now := clock; trace := []; fetches := 0; generations := 0;
             replies := 0; _current_index := 0; _data := d |}
  | Raise e => Raise e
  end.

End Disk.

(** ** Vocabulary of the statements *)

Fixpoint take_while {A} (p : A -> bool) (l : list A) : list A :=
  match l with
  | x :: t => if p x then x :: take_while p t else []
  | [] => []
  end.

Fixpoint drop_while {A} (p : A -> bool) (l : list A) : list A :=
  match l with
  | x :: t => if p x then drop_while p t else l
  | [] => []
  end.

Inductive time_unit : Type := Minute | Second.

Definition word (u : time_unit) : list ascii :=
  match u with
  | Minute => minute
  | Second => second
  end.

(** The wait hint that starts at the head of [s], if there is one: the
    longest run of digits, the white space after it and the unit word. *)
Definition hint_here (s : list ascii) : option (list ascii * time_unit) :=
  match take_while isdigit s with
  | [] => None
  | ds =>
      let rest := drop_while isspace (drop_while isdigit s) in
      if startswith minute rest then Some (ds, Minute)
      else if startswith second rest then Some (ds, Second)
      else None
  end.

(** The message [s] holds, from position [i] on, the number [n] in decimal
    digits, then white space (possibly none), then the word of [u] in any
    mix of upper and lower case. *)
Definition hint_at (s : list ascii) (i : nat) (n : Z) (u : time_unit) : Prop :=
  exists pre ds ws w post,
    s = pre ++ ds ++ ws ++ w ++ post /\
    List.length pre = i /\
    ds <> [] /\
    forallb isdigit ds = true /\
    forallb isspace ws = true /\
    lower w = word u /\
    n = int ds.

(** The comments a listing hands out before it ends or breaks. *)
Fixpoint items_of (l : listing) : list Comment :=
  match l with
  | Item c rest => c :: items_of rest
  | _ => []
  end.

(** [comment] was created after the cursor [since]. *)
Definition newer (since : Z) (comment : Comment) : bool :=
  (created_utc comment >? since)%Z.

(** The keyword test of forum mode: no keyword configured, or one of them
    occurs in the body. *)
Definition keyword_ok (keywords : option (list string)) (comment : Comment) : bool :=
  negb (truthy keywords) ||
  _matches_keywords (body comment) (match keywords with Some k => k | None => [] end).

(** The world a computation leaves, and what it returns. *)
Definition exec {A} (c : M A) (w : World) : World := snd (c w).

Definition result {A} (c : M A) (w : World) : outcome A := fst (c w).

(** [mark_replied] on each identifier of [ids], in order. *)
Fixpoint mark_all (ids : list string) : M unit :=
  match ids with
  | [] => ret tt
  | comment_id :: rest => mark_replied comment_id ;;; mark_all rest
  end.

(** What [mark_replied] keeps of the list after an append. *)
Definition keep (n : nat) (l : list string) : list string :=
  if n <? List.length l then last_n n l else l.

(** [n] times the letter a: a supply of distinct identifiers. *)
Fixpoint unary (n : nat) : string :=
  match n with
  | O => EmptyString
  | S n' => String "a" (unary n')
  end.

(** [item] is a rate-limit entry ([item.error_type == "RATELIMIT"]). *)
Definition is_ratelimit (item : api_item) : bool :=
  String.eqb (error_type item) "RATELIMIT".

(** The waits that the rate-limit entries of [items] ask for, in order. *)
Definition waits (items : list api_item) : list Z :=
  map (fun item => _parse_wait_time (message item)) (filter is_ratelimit items).

(** The sessions whose identity was asked for, in order: [post_reply] asks
    for the identity of the session it has just selected. *)
Definition selections (tr : list event) : list Reddit :=
  flat_map (fun e => match e with EvMe instance => [instance] | _ => [] end) tr.

(** The lengths of the sleeps, in order. *)
Definition sleeps (tr : list event) : list Z :=
  flat_map (fun e => match e with EvSleep d => [d] | _ => [] end) tr.

(** The states written to the state file, in order. *)
Definition saves (tr : list event) : list data :=
  flat_map (fun e => match e with EvSave d => [d] | _ => [] end) tr.

(** The listings requested, in order. *)
Definition fetched (tr : list event) : list (string * Z) :=
  flat_map (fun e => match e with EvFetch t s => [(t, s)] | _ => [] end) tr.

(** An event of the poster after it has chosen its session: a post attempt
    or a sleep of non-negative length. *)
Definition poster_event (e : event) : Prop :=
  match e with
  | EvReply _ _ => True
  | EvSleep d => (0 <= d)%Z
  | _ => False
  end.

(** [w'] comes after [w] by events in [P] only; the clock has not gone back
    and everything but the clock, the trace and the call counters is as it
    was. *)
Definition extends (P : event -> Prop) (w w' : World) : Prop :=
  (exists evs, trace w' = trace w ++ evs /\ Forall P evs) /\
  (now w <= now w')%Z /\
  _data w' = _data w /\
  _current_index w' = _current_index w.

(** [post_reply] on each post of [posts], in order: the world it leaves. *)
Fixpoint post_many (env : Env) (r : Replier) (posts : list (Comment * string))
  (w : World) : World :=
  match posts with
  | [] => w
  | (comment, reply_text) :: rest =>
      post_many env r rest (exec (post_reply env r comment reply_text) w)
  end.

(** The positions that [n] selections in a row visit in a pool of [k]
    sessions, from position [i] on. *)
Definition picks (i k n : nat) : list nat :=
  map (fun j => (i + j) mod k) (seq 0 n).

(** The world after one round of the retry loop: the sleep, then the post
    attempt. *)
Definition retry_step (wait : Z) (comment_id text : string) (w : World) : World :=
  count_reply (emit (EvReply comment_id text) (advance wait (emit (EvSleep wait) w))).


Definition retried (ds : list Z) (comment_id text : string) (w : World) : World :=
  fold_left (fun w0 d => retry_step d comment_id text w0) ds w.


(** The platform raised a [RedditAPIException]. *)
Definition api_error (answer : option exn) : Prop :=
  exists items, answer = Some (RedditAPIException items).

(** The stored cursor ([state.last_run_time]). *)
Definition cursor (w : World) : Z :=
  match data_last_run_time (_data w) with
  | Some t => t
  | None => 0%Z
  end.

(** What the fetch of a cycle started in [w] does: the comments it yields and
    the exception that ends it, if one does. *)
Definition cycle_fetch (env : Env) (config : Config) (w : World) : generator :=
  if String.eqb (mode config) "user"
  then user_loop (limit 100 (redditor_comments_new env (target config) (fetches w)))
         (cursor w)
  else subreddit_loop (limit 100 (subreddit_comments env (target config) (fetches w)))
         (cursor w) (or_none (keywords config)).

(** An event of the reply loop of a cycle whose cursor is [t]: no listing is
    requested, and a write of the state file carries the cursor [t]. *)
Definition loop_event (t : option Z) (e : event) : Prop :=
  match e with
  | EvFetch _ _ => False
  | EvSave d => data_last_run_time d = t
  | _ => True
  end.

(** [w'] comes after [w] by events of the reply loop: the clock has not gone
    back and the cursor is as it was. *)
Definition loop_step (w w' : World) : Prop :=
  (now w <= now w')%Z /\
  data_last_run_time (_data w') = data_last_run_time (_data w) /\
  exists evs, trace w' = trace w ++ evs /\
              Forall (loop_event (data_last_run_time (_data w))) evs.

(** ** Sample data for the examples *)

Definition sample (comment_id : string) (created : Z) (text : string) : Comment :=
  {| id := comment_id; body := text; created_utc := created;
     subreddit := "rust"; submission_title := None |}.

(** The exception of a rate limit with the wait hint [hint]. *)
Definition rate_limited (hint : string) : exn :=
  RedditAPIException [{| error_type := "RATELIMIT"; message := hint |}].

(** A platform whose [n]-th post attempt is answered by the [n]-th element of
    [answers] (acknowledged past the end), which serves [listings] to the
    successive fetches (a network failure past the end), and whose language
    model always answers. *)
Definition platform (answers : list (option exn)) (listings : list listing) : Env :=
  {| redditor_comments_new := fun _ n => nth n listings (Broken RequestException);
     subreddit_comments := fun _ n => nth n listings (Broken RequestException);
     llm_generate := fun _ _ => Some "Nice point."%string;
     user_me := fun instance => Some instance;
     comment_reply := fun n => nth n answers None |}.

Definition pool3 : Replier :=
  {| instances := ["alice"; "bob"; "carol"]%string; reply_delay := 10 |}.

(** A configuration that watches the user [name], [loop_] telling whether it
    runs forever. *)
Definition watch_user (name : string) (loop_ : bool) : Config :=
  {| mode := "user"; target := name; keywords := [];
     sleep_duration := 30; max_replies := 10; loop := loop_ |}.

(** ** Vocabulary of the further properties *)

(** The state file after the writes of [tr], when it was [f] before. *)
Definition file_after (f : state_file) (tr : list event) : state_file :=
  fold_left (fun f0 e => match e with
                         | EvSave d => Object d
                         | EvSaveFailed true => NotJSON
                         | _ => f0
                         end) tr f.

(** What a restart of the process would load. *)
Definition reloaded (f : state_file) (w : World) : outcome data :=
  Disk._load (file_after f (trace w)).

(** A disk that takes every write. *)
Definition writable : nat -> write_result := fun _ => Written.

(** What [save] does in [w] when the disk answers [answer]. *)
Definition saved (answer : write_result) (w : World) : outcome unit * World :=
  match answer with
  | Written => (Ret tt, emit (EvSave (_data w)) w)
  | Refused => (Raise OSError, emit (EvSaveFailed false) w)
  | Torn => (Raise OSError, emit (EvSaveFailed true) w)
  end.

(** The operation [c] of the state store, run in [w], has made one attempt to
    write the state file, which the disk answered by [answer]: it returns
    when the file was written, and a restart would then load the state in
    memory; it raises [OSError] otherwise, and a restart would load what it
    would have loaded before when the write was refused, the fresh state when
    the file was torn.  ([f] is the state file when the process started.) *)
Definition write_met (f : state_file) (answer : write_result) (c : M unit)
  (w : World) : Prop :=
  let w' := exec c w in
  writes (trace w') = S (writes (trace w)) /\
  match answer with
  | Written => result c w = Ret tt /\ reloaded f w' = Ret (_data w')
  | Refused => result c w = Raise OSError /\ reloaded f w' = reloaded f w
  | Torn => result c w = Raise OSError /\ reloaded f w' = Ret fresh
  end.

(** The exception on which a listing breaks, if it does. *)
Fixpoint breaks (l : listing) : option exn :=
  match l with
  | Done => None
  | Item _ rest => breaks rest
  | Broken e => Some e
  end.

(** The world in which [attempt] posts: the generation has been counted. *)
Definition generated (comment : Comment) (w : World) : World :=
  count_generation (emit (EvGenerate (id comment)) w).

(** The generation for [comment] answers and [post_reply] returns [True]. *)
Definition posts (env : Env) (replier : Replier) (comment : Comment) (w : World)
  : bool :=
  match llm_generate env (generations w) comment with
  | Some text =>
      match result (post_reply env replier comment text) (generated comment w) with
      | Ret true => true
      | _ => false
      end
  | None => false
  end.

(** The world after the generation and the post, before anything is
    recorded. *)
Definition posted_world (env : Env) (replier : Replier) (comment : Comment)
  (w : World) : World :=
  match llm_generate env (generations w) comment with
  | Some text => exec (post_reply env replier comment text) (generated comment w)
  | None => generated comment w
  end.

(** Events among which the state file is not written, and a step of the
    program that has neither written it nor changed the state in memory. *)
Definition quiet (evs : list event) : Prop :=
  Forall (fun e => is_write e = false) evs.

Definition calm (w w' : World) : Prop :=
  _data w' = _data w /\ exists evs, trace w' = trace w ++ evs /\ quiet evs.

(** [e] is a generation for, or a post attempt on, the comment [comment_id]. *)
Definition touches (comment_id : string) (e : event) : Prop :=
  match e with
  | EvGenerate c => c = comment_id
  | EvReply c _ => c = comment_id
  | _ => False
  end.

(** An event of the poster for the comment [comment_id], after it has chosen
    its session. *)
Definition post_event (comment_id : string) (e : event) : Prop :=
  match e with
  | EvReply c _ => c = comment_id
  | EvSleep d => (0 <= d)%Z
  | _ => False
  end.

(** The world in which the reply loop of a cycle starts: the fetch has been
    made. *)
Definition fetched_world (config : Config) (w : World) : World :=
  count_fetch (emit (EvFetch (target config) (cursor w)) w).

(** [update_run_time], as a function on worlds. *)
Definition stamped (w : World) : World :=
  let d := {| data_last_run_time := Some (now w);
              data_replied_ids := data_replied_ids (_data w) |} in
  emit (EvSave d) (set_data d w).

(** ** config.py *)

(** [RedditAccount] *)
Record RedditAccount : Type := {
  username : string;
  password : string;
  client_id : string;
  client_secret : string;
  user_agent : string
}.

(** The process environment read by [os.getenv]. *)
Definition environ : Type := string -> option string.

(** [os.getenv(name, default)] *)
Definition getenv (env : environ) (name default : string) : string :=
  match env name with
  | Some value => value
  | None => default
  end.

(** Truth value of an optional string ([None] and the empty string are
    false). *)
Definition nonempty (o : option string) : bool :=
  match o with
  | Some (String _ _) => true
  | _ => false
  end.

(** Truth value of an optional integer ([None] and 0 are false). *)
Definition nonzero (o : option Z) : bool :=
  match o with
  | Some z => negb (z =? 0)%Z
  | None => false
  end.

(** [str(i)] on a natural number. *)
Definition str (i : nat) : string := NilEmpty.string_of_uint (Nat.to_uint i).

(** The account of the variables [REDDIT_USERNAME<suffix>], ...: none when
    the user name is unset or empty. *)
Definition account_of (env : environ) (suffix : string) (default_agent : string)
  : list RedditAccount :=
  match env ("REDDIT_USERNAME" ++ suffix)%string with
  | Some (String _ _ as name) =>
      [{| username := name;
          password := getenv env ("REDDIT_PASSWORD" ++ suffix) "";
          client_id := getenv env ("REDDIT_CLIENT_ID" ++ suffix) "";
          client_secret := getenv env ("REDDIT_CLIENT_SECRET" ++ suffix) "";
          user_agent := getenv env ("REDDIT_USER_AGENT" ++ suffix) default_agent |}]
  | _ => []
  end.

(** The accounts that [Config.from_env_and_args] loads: the main one, then
    those numbered [range(2, 6)]. *)
Definition load_accounts (env : environ) : list RedditAccount :=
  account_of env "" "reddit-ai-replier/1.0" ++
  flat_map (fun i => account_of env ("_" ++ str i)
                       ("reddit-ai-replier/1.0-" ++ str i))%string
    (seq 2 4).

(** [s.split(sep)] for a one-character separator. *)
Fixpoint split_on (sep : ascii) (s : list ascii) : list (list ascii) :=
  match s with
  | [] => [[]]
  | c :: t =>
      if Ascii.eqb c sep then [] :: split_on sep t
      else
        match split_on sep t with
        | first :: others => (c :: first) :: others
        | [] => [[c]]
        end
  end.

(** [s.strip()] *)
Definition strip (s : list ascii) : list ascii :=
  rev (drop_while isspace (rev (drop_while isspace s))).

(** [[k.strip() for k in keywords.split(",")]] *)
Definition parse_keywords (arg : string) : list string :=
  map (fun k => string_of_list_ascii (strip k)) (split_on "," (chars arg)).

(** The whole [Config] of config.py.  The fields that a cycle reads are those
    of [cycle]; [config_reply_delay] is the field [reply_delay]. *)
Record Settings : Type := {
  accounts : list RedditAccount;
  llm_provider : string;
  openai_api_key : option string;
  anthropic_api_key : option string;
  ollama_base_url : string;
  ollama_model : string;
  cycle : Config;
  config_reply_delay : Z;
  prompt_file : string
}.

(** The [argparse.Namespace] of [_parse_args]. *)
Record Namespace : Type := {
  arg_mode : option string;
  arg_target : option string;
  arg_keywords : option string;
  arg_llm : option string;
  arg_interval : option Z;
  arg_delay : option Z;
  arg_max : option Z;
  arg_loop : bool;
  arg_prompt : option string
}.

(** [value if arg else old], for the overrides of the command line. *)
Definition override_str (arg : option string) (old : string) : string :=
  match arg with
  | Some value => if nonempty arg then value else old
  | None => old
  end.

Definition override_int (arg : option Z) (old : Z) : Z :=
  match arg with
  | Some value => if nonzero arg then value else old
  | None => old
  end.

(** The overrides of [Config.from_env_and_args], applied to the
    configuration loaded from the environment. *)
Definition apply_args (config : Settings) (args : Namespace) : Settings :=
  {| accounts := accounts config;
     llm_provider := override_str (arg_llm args) (llm_provider config);
     openai_api_key := openai_api_key config;
     anthropic_api_key := anthropic_api_key config;
     ollama_base_url := ollama_base_url config;
     ollama_model := ollama_model config;
     cycle :=
       {| mode := override_str (arg_mode args) (mode (cycle config));
          target := override_str (arg_target args) (target (cycle config));
          keywords :=
            match arg_keywords args with
            | Some value =>
                if nonempty (arg_keywords args) then parse_keywords value
                else keywords (cycle config)
            | None => keywords (cycle config)
            end;
          sleep_duration :=
            override_int (arg_interval args) (sleep_duration (cycle config));
          max_replies := override_int (arg_max args) (max_replies (cycle config));
          loop := arg_loop args |};
     config_reply_delay := override_int (arg_delay args) (config_reply_delay config);
     prompt_file := override_str (arg_prompt args) (prompt_file config) |}.

(** ** reddit_bot.py: start-up *)

(** How the start-up of [main] ends: [sys.exit(code)], or the components are
    built, the monitor on the first session and the replier on all of them. *)
Inductive started : Type :=
| Exit (code : Z)
| Started (monitor : Reddit) (replier : Replier).

(** The start-up of [main] from the checks of the loaded configuration
    [config] (what [Config.from_env_and_args] returned; its own exits and
    exceptions come before) up to the construction of the monitor and the
    replier; [login] tells whether [create_reddit_instance] succeeds for an
    account (an account whose login raises is skipped). *)
Definition startup (config : Settings) (login : RedditAccount -> bool) : started :=
  match accounts config with
  | [] => Exit 1
  | _ =>
      if String.eqb (target (cycle config)) "" then Exit 1
      else
        let reddit_instances := map username (filter login (accounts config)) in
        match reddit_instances with
        | [] => Exit 1
        | first :: _ =>
            Started first {| instances := reddit_instances;
                             reply_delay := config_reply_delay config |}
        end
  end.

(** The comments of [l] are listed newest first. *)
Definition newest_first (l : list Comment) : Prop :=
  StronglySorted (fun a b => (created_utc b <= created_utc a)%Z) l.

(* ===================================================================== *)
(** * Part II: properties                                                 *)
(* ===================================================================== *)

(** ** Characters *)

Ltac by_cases_on_char c :=
  destruct c as [[] [] [] [] [] [] [] []]; try discriminate; reflexivity.

Lemma isdigit_lower c : isdigit (lower_char c) = isdigit c.
Proof. by_cases_on_char c. Qed.

Lemma isspace_lower c : isspace (lower_char c) = isspace c.
Proof. by_cases_on_char c. Qed.

Lemma lower_digit c : isdigit c = true -> lower_char c = c.
Proof. by_cases_on_char c. Qed.

Lemma lower_space c : isspace c = true -> lower_char c = c.
Proof. by_cases_on_char c. Qed.

Lemma space_not_digit c : isspace c = true -> isdigit c = false.
Proof. by_cases_on_char c. Qed.

Lemma digit_not_space c : isdigit c = true -> isspace c = false.
Proof. by_cases_on_char c. Qed.

Lemma digit_starts_no_word c t :
  isdigit c = true ->
  startswith minute (c :: t) = false /\ startswith second (c :: t) = false.
Proof. destruct c as [[] [] [] [] [] [] [] []]; try discriminate; split; reflexivity. Qed.

Lemma space_starts_no_word c t :
  isspace c = true ->
  startswith minute (c :: t) = false /\ startswith second (c :: t) = false.
Proof. destruct c as [[] [] [] [] [] [] [] []]; try discriminate; split; reflexivity. Qed.

(** ** Lists *)

Lemma take_drop_while {A} (p : A -> bool) l :
  take_while p l ++ drop_while p l = l.
Proof.
  induction l as [|x t IH]; simpl; [reflexivity|].
  destruct (p x); simpl; [now rewrite IH | reflexivity].
Qed.

Lemma take_while_all {A} (p : A -> bool) l : forallb p (take_while p l) = true.
Proof.
  induction l as [|x t IH]; simpl; [reflexivity|].
  destruct (p x) eqn:E; simpl; [now rewrite E | reflexivity].
Qed.

(** A list stops the scan for [p] when it is empty or its head fails [p]. *)
Definition stops {A} (p : A -> bool) (l : list A) : Prop :=
  match l with
  | [] => True
  | x :: _ => p x = false
  end.

Lemma drop_while_stops {A} (p : A -> bool) l : stops p (drop_while p l).
Proof.
  induction l as [|x t IH]; simpl; [exact I|].
  destruct (p x) eqn:E; simpl; [exact IH | exact E].
Qed.

Lemma take_while_app {A} (p : A -> bool) a b :
  forallb p a = true -> stops p b -> take_while p (a ++ b) = a.
Proof.
  intros Ha Hb. induction a as [|x a IH]; simpl in *.
  - destruct b as [|y b]; simpl in *; [reflexivity | now rewrite Hb].
  - apply andb_true_iff in Ha as [Hx Ha]. rewrite Hx. f_equal. now apply IH.
Qed.

Lemma drop_while_app {A} (p : A -> bool) a b :
  forallb p a = true -> stops p b -> drop_while p (a ++ b) = b.
Proof.
  intros Ha Hb. induction a as [|x a IH]; simpl in *.
  - destruct b as [|y b]; simpl in *; [reflexivity | now rewrite Hb].
  - apply andb_true_iff in Ha as [Hx Ha]. rewrite Hx. now apply IH.
Qed.

Lemma startswith_app w post : startswith w (w ++ post) = true.
Proof.
  induction w as [|a w IH]; simpl; [reflexivity|].
  now rewrite Ascii.eqb_refl, IH.
Qed.

Lemma startswith_split w s :
  startswith w s = true -> exists post, s = w ++ post.
Proof.
  revert s. induction w as [|a w IH]; intros s H; simpl in *.
  - now exists s.
  - destruct s as [|b s]; [discriminate|].
    apply andb_true_iff in H as [Hab H].
    apply Ascii.eqb_eq in Hab. subst b.
    destruct (IH _ H) as [post ->]. now exists post.
Qed.

(** ** The matcher on the wait pattern *)

(** When the continuation rejects every input that still starts with a
    character of the class, giving characters back never helps: the greedy
    quantifier takes the longest run. *)
Lemma greedy_longest p gs (k : kont) :
  (forall taken c t, p c = true -> k taken (c :: t) gs = None) ->
  forall s taken,
    greedy p s taken gs k = k (taken ++ take_while p s) (drop_while p s) gs.
Proof.
  intros Hk. induction s as [|c t IH]; intros taken; simpl.
  - now rewrite app_nil_r.
  - destruct (p c) eqn:Hc.
    + rewrite IH, <- app_assoc. simpl.
      destruct (k (taken ++ c :: take_while p t) (drop_while p t) gs) eqn:E.
      * reflexivity.
      * now apply Hk.
    + now rewrite app_nil_r.
Qed.

Definition as_groups (h : option (list ascii * time_unit)) : option groups :=
  match h with
  | Some (ds, u) => Some [ds; word u]
  | None => None
  end.

Lemma match_here_wait s : match_here wait_pattern s = as_groups (hint_here s).
Proof.
  unfold match_here, hint_here, wait_pattern.
  destruct s as [|c t]; [reflexivity|].
  cbn [rmatch take_while drop_while].
  destruct (isdigit c) eqn:Hc; [|reflexivity].
  rewrite greedy_longest.
  - cbn [app]. rewrite greedy_longest.
    + cbn [app].
      destruct (startswith minute (drop_while isspace (drop_while isdigit t)));
        [reflexivity|].
      destruct (startswith second (drop_while isspace (drop_while isdigit t)));
        reflexivity.
    + intros taken c' t' Hc'.
      destruct (space_starts_no_word c' t' Hc') as [-> ->]. reflexivity.
  - intros taken c' t' Hc'. cbn [greedy].
    rewrite (digit_not_space c' Hc').
    destruct (digit_starts_no_word c' t' Hc') as [-> ->]. reflexivity.
Qed.

Lemma search_hit r s g : match_here r s = Some g -> search r s = Some g.
Proof. intros H. destruct s; simpl; now rewrite H. Qed.

Lemma search_skip r i : forall s,
  i <= List.length s ->
  (forall j, j < i -> match_here r (skipn j s) = None) ->
  search r s = search r (skipn i s).
Proof.
  induction i as [|i IH]; intros s Hi Hnone; [reflexivity|].
  destruct s as [|c t]; simpl in Hi; [lia|].
  pose proof (Hnone 0 ltac:(lia)) as H0. simpl in H0.
  simpl. rewrite H0.
  apply IH; [lia|].
  intros j Hj. apply (Hnone (S j)). lia.
Qed.

Lemma search_none r : forall s,
  (forall j, j <= List.length s -> match_here r (skipn j s) = None) ->
  search r s = None.
Proof.
  induction s as [|c t IH]; intros Hnone.
  - pose proof (Hnone 0 (le_n _)) as H0. simpl in H0.
    simpl. now rewrite H0.
  - pose proof (Hnone 0 ltac:(simpl; lia)) as H0. simpl in H0.
    simpl. rewrite H0.
    apply IH. intros j Hj. apply (Hnone (S j)). simpl. lia.
Qed.

(** ** Hints, declaratively and by scanning *)

Lemma lower_digits ds : forallb isdigit ds = true -> lower ds = ds.
Proof.
  induction ds as [|c ds IH]; simpl; [reflexivity|].
  intros H. apply andb_true_iff in H as [Hc H].
  now rewrite (lower_digit c Hc), IH.
Qed.

Lemma lower_spaces ws : forallb isspace ws = true -> lower ws = ws.
Proof.
  induction ws as [|c ws IH]; simpl; [reflexivity|].
  intros H. apply andb_true_iff in H as [Hc H].
  now rewrite (lower_space c Hc), IH.
Qed.

Lemma forallb_isdigit_lower l : forallb isdigit (lower l) = forallb isdigit l.
Proof.
  induction l as [|c l IH]; simpl; [reflexivity|].
  now rewrite isdigit_lower, IH.
Qed.

Lemma forallb_isspace_lower l : forallb isspace (lower l) = forallb isspace l.
Proof.
  induction l as [|c l IH]; simpl; [reflexivity|].
  now rewrite isspace_lower, IH.
Qed.

Lemma word_stops_digit u post : stops isdigit (word u ++ post).
Proof. destruct u; reflexivity. Qed.

Lemma word_stops_space u post : stops isspace (word u ++ post).
Proof. destruct u; reflexivity. Qed.

Lemma spaces_word_stop_digit ws u post :
  forallb isspace ws = true -> stops isdigit (ws ++ word u ++ post).
Proof.
  destruct ws as [|c ws]; simpl.
  - intros _. apply word_stops_digit.
  - intros H. apply andb_true_iff in H as [Hc _]. now apply space_not_digit.
Qed.

(** The scan finds a hint laid out as digits, white space, word. *)
Lemma hint_here_layout ds ws u post :
  ds <> [] -> forallb isdigit ds = true -> forallb isspace ws = true ->
  hint_here (ds ++ ws ++ word u ++ post) = Some (ds, u).
Proof.
  intros Hne Hds Hws. unfold hint_here.
  rewrite (take_while_app _ _ _ Hds (spaces_word_stop_digit ws u post Hws)).
  rewrite (drop_while_app _ _ _ Hds (spaces_word_stop_digit ws u post Hws)).
  rewrite (drop_while_app _ _ _ Hws (word_stops_space u post)).
  destruct ds as [|d ds]; [congruence|].
  destruct u; reflexivity.
Qed.

(** Conversely a hint found by the scan has that layout. *)
Lemma hint_here_inv s ds u :
  hint_here s = Some (ds, u) ->
  exists ws post,
    s = ds ++ ws ++ word u ++ post /\
    ds <> [] /\ forallb isdigit ds = true /\ forallb isspace ws = true.
Proof.
  unfold hint_here. intros H.
  pose proof (take_drop_while isdigit s) as Hs.
  pose proof (take_drop_while isspace (drop_while isdigit s)) as Hr.
  pose proof (take_while_all isdigit s) as Hd.
  pose proof (take_while_all isspace (drop_while isdigit s)) as Hw.
  destruct (take_while isdigit s) as [|d ds'] eqn:Et; [discriminate|].
  set (rest := drop_while isspace (drop_while isdigit s)) in *.
  set (ws := take_while isspace (drop_while isdigit s)) in *.
  assert (Hu : ds = d :: ds' /\ startswith (word u) rest = true).
  { destruct (startswith minute rest) eqn:E1.
    - inversion H; subst. now split.
    - destruct (startswith second rest) eqn:E2; [|discriminate].
      inversion H; subst. now split. }
  destruct Hu as [-> Hu].
  destruct (startswith_split _ _ Hu) as [post Hpost].
  exists ws, post. repeat split; trivial.
  - rewrite <- Hpost, Hr. now symmetry.
  - discriminate.
Qed.

Lemma skipn_lower i s : skipn i (lower s) = lower (skipn i s).
Proof. unfold lower. apply skipn_map. Qed.

Lemma hint_at_scan s i n u :
  hint_at s i n u ->
  i <= List.length s /\
  exists ds, hint_here (skipn i (lower s)) = Some (ds, u) /\ int ds = n.
Proof.
  intros (pre & ds & ws & w & post & Hs & Hi & Hne & Hds & Hws & Hw & Hn).
  subst s i n. split.
  - rewrite length_app. lia.
  - exists ds. split; [|reflexivity].
    rewrite skipn_lower, skipn_app, skipn_all, Nat.sub_diag. simpl.
    unfold lower. rewrite !map_app. fold (lower ds) (lower ws) (lower w).
    rewrite (lower_digits _ Hds), (lower_spaces _ Hws), Hw.
    now apply hint_here_layout.
Qed.

Lemma scan_hint_at s i ds u :
  i <= List.length s ->
  hint_here (skipn i (lower s)) = Some (ds, u) ->
  hint_at s i (int ds) u.
Proof.
  intros Hi H. rewrite skipn_lower in H.
  destruct (hint_here_inv _ H) as (ws & post & Hl & Hne & Hds & Hws).
  unfold lower in Hl.
  apply map_eq_app in Hl as (a & r1 & Hs & Ha & Hl).
  apply map_eq_app in Hl as (b & r2 & Hr1 & Hb & Hl).
  apply map_eq_app in Hl as (c & d & Hr2 & Hc & Hd).
  fold (lower a) in Ha. fold (lower b) in Hb. fold (lower c) in Hc.
  assert (Hda : forallb isdigit a = true)
    by (now rewrite <- forallb_isdigit_lower, Ha).
  assert (Hsb : forallb isspace b = true)
    by (now rewrite <- forallb_isspace_lower, Hb).
  rewrite (lower_digits _ Hda) in Ha. subst a.
  exists (firstn i s), ds, b, c, d. repeat split; trivial.
  - rewrite <- Hr2, <- Hr1, <- Hs. now rewrite firstn_skipn.
  - apply firstn_length_le, Hi.
Qed.

(** The groups that [search] returns are those of the leftmost hint. *)
Lemma search_leftmost s i n u :
  hint_at s i n u ->
  (forall j n' u', j < i -> ~ hint_at s j n' u') ->
  exists ds, search wait_pattern (lower s) = Some [ds; word u] /\ int ds = n.
Proof.
  intros Hat Hfirst.
  destruct (hint_at_scan Hat) as (Hi & ds & Hscan & Hn).
  exists ds. split; [|exact Hn].
  rewrite (@search_skip wait_pattern i).
  - apply search_hit. now rewrite match_here_wait, Hscan.
  - unfold lower. now rewrite length_map.
  - intros j Hj. rewrite match_here_wait.
    destruct (hint_here (skipn j (lower s))) as [[ds' u']|] eqn:E; [|reflexivity].
    exfalso. apply (Hfirst j (int ds') u' Hj).
    apply scan_hint_at; [lia | exact E].
Qed.

Lemma search_no_hint s :
  (forall i n u, ~ hint_at s i n u) ->
  search wait_pattern (lower s) = None.
Proof.
  intros Hno. apply search_none. intros j Hj.
  unfold lower in Hj. rewrite length_map in Hj.
  rewrite match_here_wait.
  destruct (hint_here (skipn j (lower s))) as [[ds u]|] eqn:E; [|reflexivity].
  exfalso. apply (Hno j (int ds) u). now apply scan_hint_at.
Qed.

Lemma search_found r : forall s g,
  search r s = Some g ->
  exists i, i <= List.length s /\ match_here r (skipn i s) = Some g /\
            forall j, j < i -> match_here r (skipn j s) = None.
Proof.
  induction s as [|c t IH]; intros g; cbn [search].
  - destruct (match_here r []) as [g'|] eqn:E; [|discriminate].
    intros H. exists 0. split; [lia|]. split; [now rewrite <- H|]. lia.
  - destruct (match_here r (c :: t)) as [g'|] eqn:E.
    + intros H. exists 0. split; [simpl; lia|]. split; [now rewrite <- H|]. lia.
    + intros H. destruct (IH g H) as (i & Hi & Hm & Hbefore).
      exists (S i). split; [simpl; lia|]. split; [exact Hm|].
      intros [|j] Hj; [exact E|]. apply Hbefore. lia.
Qed.

Lemma search_none_inv r : forall s,
  search r s = None ->
  forall j, j <= List.length s -> match_here r (skipn j s) = None.
Proof.
  induction s as [|c t IH]; cbn [search].
  - destruct (match_here r []) eqn:E; [discriminate|].
    intros _ j Hj. simpl in Hj. now replace j with 0 by lia.
  - destruct (match_here r (c :: t)) eqn:E; [discriminate|].
    intros H [|j] Hj; [exact E|]. apply (IH H). simpl in Hj. lia.
Qed.

(** Every message either holds no hint or has a leftmost one. *)
Lemma leftmost_hint_or_none s :
  (exists i n u, hint_at s i n u /\
                 (forall j n' u', j < i -> ~ hint_at s j n' u')) \/
  (forall i n u, ~ hint_at s i n u).
Proof.
  assert (Hlen : List.length (lower s) = List.length s)
    by (unfold lower; apply length_map).
  destruct (search wait_pattern (lower s)) as [g|] eqn:E.
  - left. destruct (search_found _ _ E) as (i & Hi & Hm & Hbefore).
    rewrite match_here_wait in Hm.
    destruct (hint_here (skipn i (lower s))) as [[ds u]|] eqn:Eh; [|discriminate].
    exists i, (int ds), u. split.
    + apply scan_hint_at; [lia | exact Eh].
    + intros j n' u' Hj Hat.
      destruct (hint_at_scan Hat) as (_ & ds' & Hscan & _).
      specialize (Hbefore j Hj). rewrite match_here_wait, Hscan in Hbefore.
      discriminate.
  - right. intros i n u Hat.
    destruct (hint_at_scan Hat) as (Hi & ds & Hscan & _).
    pose proof (@search_none_inv _ _ E i ltac:(lia)) as Hnone.
    rewrite match_here_wait, Hscan in Hnone. discriminate.
Qed.

(** C8 (as amended). For every rate-limit message, [_parse_wait_time]
    answers for the leftmost wait hint of the message, a decimal number [n]
    followed, after optional white space, by the word of a unit in any letter
    case (the word may go on, as in "minutes"): [n * 60] seconds when the
    unit is "minute", [n] seconds when it is "second"; and it answers 60
    seconds for every message that holds no such hint.  Every message is in
    one of these cases.  (Messages are the strings of code points below
    U+0100, and a number is within what [int] converts.) *)
Theorem parse_wait_time_hint (message : string) :
  (forall i n,
      hint_at (chars message) i n Minute ->
      (forall j n' u', j < i -> ~ hint_at (chars message) j n' u') ->
      _parse_wait_time message = (n * 60)%Z) /\
  (forall i n,
      hint_at (chars message) i n Second ->
      (forall j n' u', j < i -> ~ hint_at (chars message) j n' u') ->
      _parse_wait_time message = n) /\
  ((forall i n u, ~ hint_at (chars message) i n u) ->
   _parse_wait_time message = 60%Z) /\
  ((exists i n u, hint_at (chars message) i n u /\
                  (forall j n' u', j < i -> ~ hint_at (chars message) j n' u')) \/
   (forall i n u, ~ hint_at (chars message) i n u)).
Proof.
  unfold _parse_wait_time. repeat split.
  - intros i n Hat Hfirst.
    destruct (search_leftmost Hat Hfirst) as (ds & -> & <-). reflexivity.
  - intros i n Hat Hfirst.
    destruct (search_leftmost Hat Hfirst) as (ds & -> & <-). reflexivity.
  - intros Hno. now rewrite (search_no_hint Hno).
  - apply leftmost_hint_or_none.
Qed.

Example parse_2_minutes : _parse_wait_time "2 minutes" = 120%Z.
Proof. reflexivity. Qed.

Example parse_upper_case :
  _parse_wait_time "Take a break for 9 Minutes before trying again." = 540%Z.
Proof. reflexivity. Qed.

Example parse_seconds : _parse_wait_time "try again in 45seconds" = 45%Z.
Proof. reflexivity. Qed.

Example parse_default : _parse_wait_time "try again later" = 60%Z.
Proof. reflexivity. Qed.

Example parse_takes_leftmost :
  _parse_wait_time "12x 3 minutes, 5 seconds" = 180%Z.
Proof. reflexivity. Qed.

(** C8 as stated does not hold for a hint that is not the leftmost one of
    its message.  The first message holds the number 3 followed by
    "minutes", and the parser answers 5, for the hint "5 seconds" before it;
    the second holds the number 5 followed by "seconds", and the parser
    answers 180.  A number is read from the digits next to the unit only:
    "1.5 minutes" gives 300 seconds. *)
Lemma later_hint_not_read :
  hint_at (chars "5 seconds, then 3 minutes") 16 3 Minute /\
  _parse_wait_time "5 seconds, then 3 minutes" = 5%Z /\
  _parse_wait_time "5 seconds, then 3 minutes" <> (3 * 60)%Z /\
  hint_at (chars "3 minutes 5 seconds") 10 5 Second /\
  _parse_wait_time "3 minutes 5 seconds" = 180%Z /\
  _parse_wait_time "3 minutes 5 seconds" <> 5%Z /\
  _parse_wait_time "1.5 minutes" = 300%Z.
Proof.
  split; [|split; [reflexivity|split; [discriminate|split;
          [|split; [reflexivity|split; [discriminate|reflexivity]]]]]].
  - exists (chars "5 seconds, then "), (chars "3"), (chars " "),
      (chars "minute"), (chars "s").
    repeat split; try reflexivity; discriminate.
  - exists (chars "3 minutes "), (chars "5"), (chars " "),
      (chars "second"), (chars "s").
    repeat split; try reflexivity; discriminate.
Qed.

Lemma parse_wait_time_hint_witness :
  hint_at (chars "Take a break for 9 minutes before trying again.") 17 9 Minute /\
  _parse_wait_time "Take a break for 9 minutes before trying again." = 540%Z /\
  hint_at (chars "wait 7SECONDS") 5 7 Second /\
  _parse_wait_time "wait 7SECONDS" = 7%Z /\
  _parse_wait_time "slow down" = 60%Z.
Proof.
  assert (H1 : hint_at (chars "Take a break for 9 minutes before trying again.")
                 17 9 Minute).
  { exists (chars "Take a break for "), (chars "9"), (chars " "),
      (chars "minute"), (chars "s before trying again.").
    repeat split; try reflexivity; discriminate. }
  assert (H2 : hint_at (chars "wait 7SECONDS") 5 7 Second).
  { exists (chars "wait "), (chars "7"), [], (chars "SECOND"), (chars "S").
    repeat split; try reflexivity; discriminate. }
  split; [exact H1|]. split; [|split; [exact H2|split]].
  - apply (proj1 (parse_wait_time_hint _) 17 9%Z H1).
    intros j n' u' Hj Hat.
    destruct (hint_at_scan Hat) as (_ & ds & Hscan & _).
    do 17 (destruct j as [|j]; [vm_compute in Hscan; discriminate|]). lia.
  - apply (proj1 (proj2 (parse_wait_time_hint _)) 5 7%Z H2).
    intros j n' u' Hj Hat.
    destruct (hint_at_scan Hat) as (_ & ds & Hscan & _).
    do 5 (destruct j as [|j]; [vm_compute in Hscan; discriminate|]). lia.
  - apply (proj1 (proj2 (proj2 (parse_wait_time_hint _)))).
    intros i n u Hat.
    destruct (hint_at_scan Hat) as (Hi & ds & Hscan & _).
    do 10 (destruct i as [|i]; [vm_compute in Hscan; discriminate|]).
    vm_compute in Hi. lia.
Defined.

(** ** monitor.py: the comment source *)

Lemma user_loop_prefix l since :
  fst (user_loop l since) = take_while (newer since) (items_of l).
Proof.
  induction l as [|c rest IH|e]; simpl; try reflexivity.
  unfold newer at 1.
  destruct (created_utc c >? since)%Z; [|reflexivity].
  destruct (user_loop rest since) as [ys fin]. simpl in *. now rewrite IH.
Qed.

Lemma subreddit_loop_filter l since keywords :
  fst (subreddit_loop l since keywords) =
  filter (fun c => newer since c && keyword_ok keywords c) (items_of l).
Proof.
  induction l as [|c rest IH|e]; simpl; try reflexivity.
  destruct (subreddit_loop rest since keywords) as [ys fin]. simpl in IH.
  subst ys.
  assert (Hn : newer since c = negb (created_utc c <=? since)%Z)
    by (unfold newer; now rewrite Z.gtb_ltb, Z.ltb_antisym).
  assert (Hk : keyword_ok keywords c =
               negb (truthy keywords &&
                     negb (_matches_keywords (body c)
                             (match keywords with Some k => k | None => [] end))))
    by (unfold keyword_ok; destruct (truthy keywords), (_matches_keywords _ _);
        reflexivity).
  rewrite Hn, Hk.
  destruct (created_utc c <=? since)%Z; simpl; [reflexivity|].
  destruct (truthy keywords && _)%bool; reflexivity.
Qed.

Lemma take_while_Forall {A} (p : A -> bool) l :
  Forall (fun x => p x = true) (take_while p l).
Proof.
  induction l as [|x t IH]; simpl; [constructor|].
  destruct (p x) eqn:E; constructor; assumption.
Qed.

Lemma newer_lt since c : newer since c = true <-> (since < created_utc c)%Z.
Proof. unfold newer. rewrite Z.gtb_ltb. apply Z.ltb_lt. Qed.

(** C4. For every target and every cursor [since], each comment that the
    source yields was created strictly after [since], so a comment created
    exactly at [since] is never yielded.  User mode yields the comments of
    the listing (at most 100) up to the first one at or below the cursor and
    stops there; forum mode skips the comments at or below the cursor and
    those that fail the keyword test, and yields the others in order. *)
Theorem source_yields_after_cursor (env : Env) (target : string) (since : Z)
  (keywords : option (list string)) (w : World) :
  (exists g w',
      get_user_comments env target since w = (Ret g, w') /\
      Forall (fun c => (since < created_utc c)%Z) (fst g) /\
      fst g = take_while (newer since)
                (items_of (limit 100 (redditor_comments_new env target (fetches w))))) /\
  (exists g w',
      get_subreddit_comments env target since keywords w = (Ret g, w') /\
      Forall (fun c => (since < created_utc c)%Z) (fst g) /\
      fst g = filter (fun c => newer since c && keyword_ok keywords c)
                (items_of (limit 100 (subreddit_comments env target (fetches w))))).
Proof.
  split.
  - eexists _, _. split; [reflexivity|]. split.
    + rewrite user_loop_prefix.
      eapply Forall_impl; [|apply take_while_Forall].
      intros c. apply newer_lt.
    + apply user_loop_prefix.
  - eexists _, _. split; [reflexivity|]. split.
    + rewrite subreddit_loop_filter. apply Forall_forall.
      intros c Hc. apply filter_In in Hc as [_ Hc].
      apply andb_true_iff in Hc as [Hc _]. now apply newer_lt.
    + apply subreddit_loop_filter.
Qed.

(** ** state.py: the state store *)

Lemma mem_In x l : mem x l = true <-> In x l.
Proof.
  unfold mem. rewrite existsb_exists. split.
  - intros (y & Hy & E). apply String.eqb_eq in E. now subst.
  - intros H. exists x. split; [exact H | apply String.eqb_refl].
Qed.

Lemma world_eta w :
  {| now := now w; trace := trace w; fetches := fetches w;
     generations := generations w; replies := replies w;
     _current_index := _current_index w; _data := _data w |} = w.
Proof. now destruct w. Qed.

(** [mark_replied] on a new identifier: append, trim, save. *)
Lemma mark_replied_new comment_id w :
  mem comment_id (replied_ids (_data w)) = false ->
  let d := {| data_last_run_time := data_last_run_time (_data w);
              data_replied_ids :=
                Some (keep 1000 (replied_ids (_data w) ++ [comment_id])) |} in
  mark_replied comment_id w = (Ret tt, emit (EvSave d) (set_data d w)).
Proof.
  intros Hmem d. unfold mark_replied, bind, get, modify, save, ret.
  cbv beta iota zeta. cbn [fst snd _data set_data]. rewrite Hmem.
  reflexivity.
Qed.

(** [mark_replied] on a known identifier: nothing happens. *)
Lemma mark_replied_known comment_id w :
  mem comment_id (replied_ids (_data w)) = true ->
  mark_replied comment_id w = (Ret tt, w).
Proof.
  intros Hmem. unfold mark_replied, bind, get, modify, ret.
  cbv beta iota zeta. rewrite Hmem. f_equal.
  destruct w as [n t f g r i [lrt [l|]]]; [reflexivity|discriminate].
Qed.

Lemma last_n_short {A} n (l : list A) : List.length l <= n -> last_n n l = l.
Proof.
  intros H. unfold last_n. now replace (List.length l - n) with 0 by lia.
Qed.

Lemma length_last_n {A} n (l : list A) : List.length (last_n n l) <= n.
Proof. unfold last_n. rewrite length_skipn. lia. Qed.

Lemma keep_last_n n l : keep n l = last_n n l.
Proof.
  unfold keep. destruct (n <? List.length l) eqn:E; [reflexivity|].
  apply Nat.ltb_ge in E. now rewrite last_n_short.
Qed.

Lemma last_n_app_last {A} n (l : list A) x :
  0 < n -> exists l', last_n n (l ++ [x]) = l' ++ [x].
Proof.
  intros Hn. unfold last_n. rewrite length_app. simpl.
  rewrite skipn_app.
  replace (List.length l + 1 - n - List.length l) with 0 by lia.
  simpl. now eexists.
Qed.

Lemma last_n_last_n_app {A} n (a b : list A) :
  last_n n (last_n n a ++ b) = last_n n (a ++ b).
Proof.
  unfold last_n.
  set (k := List.length a - n).
  assert (Hk : skipn k a ++ b = skipn k (a ++ b)).
  { rewrite skipn_app. replace (k - List.length a) with 0 by lia. reflexivity. }
  rewrite Hk, skipn_skipn. f_equal.
  rewrite length_skipn, !length_app. lia.
Qed.

Lemma NoDup_skipn {A} n (l : list A) : NoDup l -> NoDup (skipn n l).
Proof.
  intros H. rewrite <- (firstn_skipn n l) in H.
  now apply NoDup_app_remove_l in H.
Qed.

Lemma NoDup_last_n_app {A} n (a b : list A) :
  NoDup (a ++ b) -> NoDup (last_n n a ++ b).
Proof.
  intros H. unfold last_n.
  replace (skipn (List.length a - n) a ++ b)
    with (skipn (List.length a - n) (a ++ b)).
  - now apply NoDup_skipn.
  - rewrite skipn_app.
    now replace (List.length a - n - List.length a) with 0 by lia.
Qed.

Lemma mark_replied_ids comment_id w :
  replied_ids (_data (exec (mark_replied comment_id) w)) =
  if mem comment_id (replied_ids (_data w)) then replied_ids (_data w)
  else last_n 1000 (replied_ids (_data w) ++ [comment_id]).
Proof.
  unfold exec. destruct (mem comment_id (replied_ids (_data w))) eqn:E.
  - now rewrite mark_replied_known.
  - rewrite mark_replied_new by exact E. cbn [snd emit set_data _data].
    unfold replied_ids at 1. cbn [data_replied_ids]. apply keep_last_n.
Qed.

Lemma mark_all_cons comment_id rest w :
  exec (mark_all (comment_id :: rest)) w =
  exec (mark_all rest) (exec (mark_replied comment_id) w).
Proof.
  unfold exec. cbn [mark_all]. unfold bind.
  destruct (mem comment_id (replied_ids (_data w))) eqn:E.
  - now rewrite mark_replied_known.
  - now rewrite mark_replied_new.
Qed.

Lemma mark_all_bounded ids : forall w,
  List.length (replied_ids (_data w)) <= 1000 ->
  List.length (replied_ids (_data (exec (mark_all ids) w))) <= 1000.
Proof.
  induction ids as [|x t IH]; intros w Hw; [exact Hw|].
  rewrite mark_all_cons. apply IH. rewrite mark_replied_ids.
  destruct (mem x _); [exact Hw | apply length_last_n].
Qed.

Lemma mark_all_distinct ids : forall w,
  List.length (replied_ids (_data w)) <= 1000 ->
  NoDup (replied_ids (_data w) ++ ids) ->
  replied_ids (_data (exec (mark_all ids) w)) =
  last_n 1000 (replied_ids (_data w) ++ ids).
Proof.
  induction ids as [|x t IH]; intros w Hlen Hnd.
  - rewrite app_nil_r. now rewrite last_n_short.
  - rewrite mark_all_cons.
    assert (Hx : mem x (replied_ids (_data w)) = false).
    { apply not_true_is_false. intros Hx. apply mem_In in Hx.
      apply NoDup_remove_2 in Hnd. apply Hnd, in_or_app. now left. }
    pose proof (mark_replied_ids x w) as Hids. rewrite Hx in Hids.
    replace (replied_ids (_data w) ++ x :: t)
      with ((replied_ids (_data w) ++ [x]) ++ t) in *
      by now rewrite <- app_assoc.
    rewrite IH; rewrite Hids.
    + apply last_n_last_n_app.
    + apply length_last_n.
    + now apply NoDup_last_n_app.
Qed.

(** C5. Marking an identifier that is already in the handled list changes
    nothing: the list keeps its size and content and the state file is not
    written again.  In particular a second [mark_replied] of the same
    identifier, right after the first, is a no-op. *)
Theorem mark_replied_idempotent :
  (forall (comment_id : string) (w : World),
      In comment_id (replied_ids (_data w)) ->
      mark_replied comment_id w = (Ret tt, w)) /\
  (forall (comment_id : string) (w : World),
      (mark_replied comment_id ;;; mark_replied comment_id) w =
      mark_replied comment_id w).
Proof.
  split.
  - intros comment_id w Hin. apply mark_replied_known. now apply mem_In.
  - intros comment_id w. unfold bind.
    destruct (mem comment_id (replied_ids (_data w))) eqn:E.
    + rewrite mark_replied_known by exact E. now apply mark_replied_known.
    + pose proof (mark_replied_ids comment_id w) as Hids.
      unfold exec in Hids. rewrite E in Hids.
      rewrite mark_replied_new in * by exact E. cbv zeta in *.
      cbn [snd] in Hids.
      apply mark_replied_known, mem_In. rewrite Hids.
      destruct (@last_n_app_last _ 1000 (replied_ids (_data w)) comment_id)
        as [l' ->]; [lia|].
      apply in_or_app. right. now left.
Qed.

Lemma mark_replied_idempotent_witness :
  let w := boot (Some {| data_last_run_time := Some 1000%Z;
                         data_replied_ids := Some ["k1"; "k2"]%string |}) 2000 in
  In "k1"%string (replied_ids (_data w)) /\
  mark_replied "k1" w = (Ret tt, w).
Proof.
  split.
  - simpl. now left.
  - apply (proj1 mark_replied_idempotent). simpl. now left.
Defined.

(** Distinct identifiers for the examples: [n] times the letter a. *)
Lemma unary_length n : String.length (unary n) = n.
Proof. induction n; simpl; congruence. Qed.

Lemma unary_distinct start len : NoDup (map unary (seq start len)).
Proof.
  apply Finite.Injective_map_NoDup; [|apply seq_NoDup].
  intros a b H. apply (f_equal String.length) in H.
  now rewrite !unary_length in H.
Qed.

(** C6. The handled list holds at most 1000 identifiers after every
    [mark_replied] (started from a list within the bound, as the fresh state
    is, and after every insertion of a new identifier whatever the list was);
    marking distinct identifiers leaves the most recent 1000 of them in
    insertion order; and once the 1001st distinct identifier is marked in a
    fresh state the oldest one is gone. *)
Theorem replied_ids_capacity :
  (forall (w : World) (comment_id : string),
      List.length (replied_ids (_data w)) <= 1000 ->
      List.length (replied_ids (_data (exec (mark_replied comment_id) w))) <= 1000) /\
  (forall (w : World) (comment_id : string),
      ~ In comment_id (replied_ids (_data w)) ->
      List.length (replied_ids (_data (exec (mark_replied comment_id) w))) <= 1000) /\
  (forall (w : World) (ids : list string),
      List.length (replied_ids (_data w)) <= 1000 ->
      NoDup (replied_ids (_data w) ++ ids) ->
      replied_ids (_data (exec (mark_all ids) w)) =
      last_n 1000 (replied_ids (_data w) ++ ids)) /\
  (forall (clock : Z) (oldest : string) (ids : list string),
      NoDup (oldest :: ids) ->
      List.length ids = 1000 ->
      let w' := exec (mark_all (oldest :: ids)) (boot None clock) in
      ~ In oldest (replied_ids (_data w')) /\ replied_ids (_data w') = ids).
Proof.
  split; [|split; [|split]].
  - intros w comment_id Hlen. rewrite mark_replied_ids.
    destruct (mem comment_id _); [exact Hlen | apply length_last_n].
  - intros w comment_id Hnew. rewrite mark_replied_ids.
    destruct (mem comment_id _) eqn:E; [|apply length_last_n].
    exfalso. now apply Hnew, mem_In.
  - intros w ids. apply mark_all_distinct.
  - intros clock oldest ids Hnd Hlen w'.
    assert (Hids : replied_ids (_data w') = ids).
    { unfold w'. rewrite mark_all_distinct.
      - cbn [boot _data _load fresh replied_ids data_replied_ids app].
        unfold last_n. cbn [List.length]. rewrite Hlen.
        now replace (1001 - 1000) with 1 by lia.
      - cbn. lia.
      - exact Hnd. }
    split; [|exact Hids].
    rewrite Hids. now apply NoDup_cons_iff in Hnd.
Qed.

Lemma replied_ids_capacity_witness :
  let ids := map unary (seq 1 1000) in
  let w' := exec (mark_all (unary 0 :: ids)) (boot None 0) in
  NoDup (unary 0 :: ids) /\ List.length ids = 1000 /\
  ~ In (unary 0) (replied_ids (_data w')) /\ replied_ids (_data w') = ids /\
  List.length (replied_ids (_data (exec (mark_replied "k3") (boot None 0)))) <= 1000.
Proof.
  intros ids w'.
  assert (Hnd : NoDup (unary 0 :: ids)) by apply (unary_distinct 0 1001).
  assert (Hlen : List.length ids = 1000)
    by (unfold ids; now rewrite length_map, length_seq).
  split; [exact Hnd|]. split; [exact Hlen|].
  destruct replied_ids_capacity as (Hone & _ & _ & Hfull).
  split; [|split].
  - apply (Hfull 0%Z (unary 0) ids Hnd Hlen).
  - apply (Hfull 0%Z (unary 0) ids Hnd Hlen).
  - apply Hone. cbn. lia.
Defined.

(** ** replier.py: the poster *)

Lemma digit_value_nonneg c : isdigit c = true -> (0 <= digit_value c)%Z.
Proof.
  unfold isdigit, in_range, digit_value. intros H.
  apply andb_true_iff in H as [H _]. apply N.leb_le in H. lia.
Qed.

Lemma int_nonneg ds : forallb isdigit ds = true -> (0 <= int ds)%Z.
Proof.
  assert (G : forall ds acc, forallb isdigit ds = true -> (0 <= acc)%Z ->
              (0 <= fold_left (fun a c => 10 * a + digit_value c) ds acc)%Z).
  { clear ds. induction ds as [|c ds IH]; intros acc H Hacc;
      cbn [fold_left forallb] in *; [exact Hacc|].
    apply andb_true_iff in H as [Hc H]. apply IH; [exact H|].
    pose proof (digit_value_nonneg c Hc). lia. }
  intros H. apply G; [exact H | lia].
Qed.

Lemma search_wait_shape s g :
  search wait_pattern s = Some g ->
  exists ds u, g = [ds; word u] /\ forallb isdigit ds = true.
Proof.
  induction s as [|c t IH]; cbn [search]; rewrite match_here_wait.
  - destruct (hint_here []) as [[ds u]|] eqn:E; simpl; [|discriminate].
    intros H. inversion H; subst.
    destruct (hint_here_inv _ E) as (ws & post & _ & _ & Hds & _).
    now exists ds, u.
  - destruct (hint_here (c :: t)) as [[ds u]|] eqn:E; simpl; [|exact IH].
    intros H. inversion H; subst.
    destruct (hint_here_inv _ E) as (ws & post & _ & _ & Hds & _).
    now exists ds, u.
Qed.

Lemma parse_wait_time_nonneg m : (0 <= _parse_wait_time m)%Z.
Proof.
  unfold _parse_wait_time.
  destruct (search wait_pattern (lower (chars m))) as [g|] eqn:E; [|lia].
  destruct (search_wait_shape _ E) as (ds & u & -> & Hds).
  pose proof (int_nonneg ds Hds).
  destruct (contains minute (word u)); lia.
Qed.

Lemma reply_run env c text w :
  reply env c text w =
  (match comment_reply env (replies w) with
   | None => Ret tt
   | Some e => Raise e
   end, count_reply (emit (EvReply (id c) text) w)).
Proof.
  unfold reply, bind, get, modify. cbn [fst snd].
  now destruct (comment_reply env (replies w)).
Qed.

Lemma sleep_run d w :
  (0 <= d)%Z -> sleep d w = (Ret tt, advance d (emit (EvSleep d) w)).
Proof.
  intros H. unfold sleep. apply Z.ltb_ge in H. now rewrite H.
Qed.

Lemma next_instance_run r w instance :
  nth_error (instances r) (_current_index w) = Some instance ->
  _next_instance r w =
  (Ret instance,
   set_index ((_current_index w + 1) mod List.length (instances r)) w).
Proof.
  intros H. unfold _next_instance, bind, get. cbn [fst snd]. now rewrite H.
Qed.

Lemma get_username_run env instance w :
  exists name, _get_username env instance w = (Ret name, emit (EvMe instance) w).
Proof.
  unfold _get_username, bind, modify.
  destruct (user_me env instance); eexists; reflexivity.
Qed.

(** *** What the poster leaves alone *)

Lemma extends_refl P w : extends P w w.
Proof.
  repeat split; try lia. exists []. now rewrite app_nil_r.
Qed.

Lemma extends_trans P w1 w2 w3 :
  extends P w1 w2 -> extends P w2 w3 -> extends P w1 w3.
Proof.
  intros ((e1 & T1 & F1) & N1 & D1 & I1) ((e2 & T2 & F2) & N2 & D2 & I2).
  repeat split; try congruence; try lia.
  exists (e1 ++ e2). split.
  - now rewrite T2, T1, app_assoc.
  - apply Forall_app. now split.
Qed.

Lemma extends_weaken (P Q : event -> Prop) w w' :
  (forall e, P e -> Q e) -> extends P w w' -> extends Q w w'.
Proof.
  intros HPQ ((e & T & F) & rest). split; [|exact rest].
  exists e. split; [exact T|]. eapply Forall_impl; eauto.
Qed.

Lemma reply_extends env c text w :
  extends poster_event w (exec (reply env c text) w).
Proof.
  unfold exec. rewrite reply_run. unfold extends. simpl.
  repeat split; try lia. exists [EvReply (id c) text].
  split; [reflexivity|]. repeat constructor.
Qed.

Lemma sleep_extends d w : extends poster_event w (exec (sleep d) w).
Proof.
  unfold exec. destruct (Z.ltb_spec d 0) as [H|H].
  - unfold sleep. apply Z.ltb_lt in H. rewrite H. apply extends_refl.
  - rewrite sleep_run by exact H. unfold extends. simpl.
    repeat split; try lia. exists [EvSleep d].
    split; [reflexivity|]. repeat constructor. exact H.
Qed.

(** *** The poster, step by step *)

Lemma retry_items_cons env c text item rest w :
  retry_items env c text (item :: rest) w =
  if is_ratelimit item then
    let wait := _parse_wait_time (message item) in
    let w1 := count_reply (emit (EvReply (id c) text)
                             (advance wait (emit (EvSleep wait) w))) in
    match comment_reply env (replies w) with
    | None => (Ret (Some true), w1)
    | Some (RedditAPIException _) => retry_items env c text rest w1
    | Some e => (Raise e, w1)
    end
  else retry_items env c text rest w.
Proof.
  cbn [retry_items]. unfold is_ratelimit.
  destruct (String.eqb (error_type item) "RATELIMIT"); [|reflexivity].
  unfold bind, try_, ret, raise.
  rewrite sleep_run by apply parse_wait_time_nonneg.
  rewrite reply_run. cbn [replies advance emit].
  destruct (comment_reply env (replies w)) as [[]|]; reflexivity.
Qed.

Lemma post_reply_run env r c text w instance :
  nth_error (instances r) (_current_index w) = Some instance ->
  post_reply env r c text w =
  let w0 := emit (EvMe instance)
              (set_index ((_current_index w + 1) mod List.length (instances r)) w) in
  let w1 := count_reply (emit (EvReply (id c) text) w0) in
  match comment_reply env (replies w) with
  | None =>
      if (reply_delay r <? 0)%Z then (Ret false, w1)
      else (Ret true, advance (reply_delay r) (emit (EvSleep (reply_delay r)) w1))
  | Some (RedditAPIException items) => retry_rounds env c text items 3 w1
  | Some _ => (Ret false, w1)
  end.
Proof.
  intros Hnth. unfold post_reply, bind.
  rewrite (next_instance_run r w Hnth).
  destruct (get_username_run env instance
              (set_index ((_current_index w + 1) mod List.length (instances r)) w))
    as [name ->].
  unfold try_, bind. rewrite reply_run. cbn [replies emit set_index].
  destruct (comment_reply env (replies w)) as [[]|]; try reflexivity.
  unfold sleep. destruct (reply_delay r <? 0)%Z; reflexivity.
Qed.

Lemma post_reply_empty env r c text w :
  nth_error (instances r) (_current_index w) = None ->
  post_reply env r c text w = (Raise IndexError, w).
Proof.
  intros Hnth. unfold post_reply, bind, _next_instance, bind, get.
  cbn [fst snd]. now rewrite Hnth.
Qed.

Lemma retry_items_extends env c text items : forall w,
  extends poster_event w (exec (retry_items env c text items) w).
Proof.
  induction items as [|item rest IH]; intros w.
  - apply extends_refl.
  - unfold exec in *. rewrite retry_items_cons.
    destruct (is_ratelimit item); [|apply IH].
    cbv zeta.
    set (wait := _parse_wait_time (message item)).
    set (w1 := count_reply _).
    assert (H1 : extends poster_event w w1).
    { unfold extends, w1. simpl. pose proof (parse_wait_time_nonneg (message item)).
      fold wait in H. repeat split; try lia.
      exists [EvSleep wait; EvReply (id c) text].
      split; [now rewrite <- app_assoc|]. repeat constructor. exact H. }
    destruct (comment_reply env (replies w)) as [[]|]; try exact H1.
    eapply extends_trans; [exact H1 | apply IH].
Qed.

Lemma retry_rounds_extends env c text items rounds : forall w,
  extends poster_event w (exec (retry_rounds env c text items rounds) w).
Proof.
  induction rounds as [|n IH]; intros w.
  - apply extends_refl.
  - unfold exec in *. cbn [retry_rounds]. unfold bind.
    pose proof (retry_items_extends env c text items w) as H1.
    unfold exec in H1.
    destruct (retry_items env c text items w) as [[[b|]|e] w1]; cbn [snd] in *;
      try exact H1.
    eapply extends_trans; [exact H1 | apply IH].
Qed.

(** After the selection, [post_reply] only posts and sleeps. *)
Lemma post_reply_extends env r c text w instance :
  nth_error (instances r) (_current_index w) = Some instance ->
  extends poster_event
    (emit (EvMe instance)
       (set_index ((_current_index w + 1) mod List.length (instances r)) w))
    (exec (post_reply env r c text) w).
Proof.
  intros Hnth. unfold exec. rewrite (post_reply_run env r c text w Hnth).
  cbv zeta.
  set (w0 := emit (EvMe instance) _).
  set (w1 := count_reply _).
  assert (H1 : extends poster_event w0 w1).
  { unfold extends, w1. simpl. repeat split; try lia.
    exists [EvReply (id c) text]. split; [reflexivity|]. repeat constructor. }
  assert (H2 : (0 <= reply_delay r)%Z ->
               extends poster_event w0
                 (advance (reply_delay r) (emit (EvSleep (reply_delay r)) w1))).
  { intros Hd. unfold extends, w1. simpl. repeat split; try lia.
    exists [EvReply (id c) text; EvSleep (reply_delay r)].
    split; [now rewrite <- app_assoc|]. repeat constructor. exact Hd. }
  destruct (comment_reply env (replies w)) as [[]|]; try exact H1.
  - eapply extends_trans; [exact H1|].
    apply (retry_rounds_extends env c text items 3 w1).
  - destruct (Z.ltb_spec (reply_delay r) 0); [exact H1 | now apply H2].
Qed.

(** *** Rotation *)

Lemma selections_app a b : selections (a ++ b) = selections a ++ selections b.
Proof. unfold selections. apply flat_map_app. Qed.

Lemma selections_poster evs : Forall poster_event evs -> selections evs = [].
Proof.
  induction 1 as [|e evs He _ IH]; [reflexivity|].
  destruct e; simpl in *; try contradiction; exact IH.
Qed.

Lemma post_reply_selects env r c text w instance :
  nth_error (instances r) (_current_index w) = Some instance ->
  let w' := exec (post_reply env r c text) w in
  _current_index w' = (_current_index w + 1) mod List.length (instances r) /\
  selections (trace w') = selections (trace w) ++ [instance].
Proof.
  intros Hnth w'.
  destruct (post_reply_extends env r c text w Hnth)
    as ((evs & Htr & Hevs) & _ & _ & Hidx).
  fold w' in Htr, Hidx. split; [exact Hidx|].
  rewrite Htr. cbn [trace emit set_index].
  rewrite !selections_app, (selections_poster Hevs), app_nil_r. reflexivity.
Qed.

Lemma map_seq_shift (f : nat -> nat) n : forall s t,
  (forall j, j < n -> f (s + j) = t + j) -> map f (seq s n) = seq t n.
Proof.
  induction n as [|n IH]; intros s t H; [reflexivity|].
  simpl. f_equal.
  - specialize (H 0 (Nat.lt_0_succ n)). now rewrite !Nat.add_0_r in H.
  - apply IH. intros j Hj. specialize (H (S j) (proj1 (Nat.succ_lt_mono _ _) Hj)).
    now rewrite <- !Nat.add_succ_comm in H.
Qed.

(** One turn of the pool, from any position: each position once. *)
Lemma picks_turn i k :
  0 < k -> picks i k k = seq (i mod k) (k - i mod k) ++ seq 0 (i mod k).
Proof.
  intros Hk. unfold picks.
  pose proof (Nat.mod_upper_bound i k ltac:(lia)) as Hr.
  pose proof (Nat.div_mod_eq i k) as Hi.
  set (r := i mod k) in *. set (q := i / k) in *.
  assert (E : seq 0 k = seq 0 (k - r) ++ seq (k - r) r).
  { replace k with ((k - r) + r) at 1 by lia. apply seq_app. }
  rewrite E, map_app. f_equal.
  - apply map_seq_shift. intros j Hj. simpl.
    symmetry. apply (Nat.mod_unique _ k q); lia.
  - apply map_seq_shift. intros j Hj. simpl.
    symmetry. apply (Nat.mod_unique _ k (q + 1)); lia.
Qed.

Lemma count_occ_seq p len : forall s,
  count_occ Nat.eq_dec (seq s len) p =
  if (s <=? p) && (p <? s + len) then 1 else 0.
Proof.
  induction len as [|len IH]; intros s; simpl.
  - destruct (Nat.leb_spec s p), (Nat.ltb_spec p (s + 0)); simpl; lia.
  - rewrite IH.
    destruct (Nat.eq_dec s p), (Nat.leb_spec s p), (Nat.ltb_spec p (s + S len)),
      (Nat.leb_spec (S s) p), (Nat.ltb_spec p (S s + len)); simpl; lia.
Qed.

Lemma count_occ_turn i k p :
  p < k -> count_occ Nat.eq_dec (picks i k k) p = 1.
Proof.
  intros Hp. rewrite picks_turn by lia.
  pose proof (Nat.mod_upper_bound i k ltac:(lia)) as Hr.
  rewrite count_occ_app, !count_occ_seq.
  destruct (Nat.leb_spec (i mod k) p), (Nat.ltb_spec p (i mod k + (k - i mod k))),
    (Nat.leb_spec 0 p), (Nat.ltb_spec p (0 + i mod k)); simpl; lia.
Qed.

Lemma map_seq_from {B} m : forall (f : nat -> B) n,
  map f (seq n m) = map (fun j => f (n + j)) (seq 0 m).
Proof.
  induction m as [|m IH]; intros f n; [reflexivity|].
  simpl. rewrite Nat.add_0_r. f_equal.
  rewrite (IH f (S n)), (IH (fun j => f (n + j)) 1).
  apply map_ext. intros j. f_equal. lia.
Qed.

Lemma picks_app i k n m :
  picks i k (n + m) = picks i k n ++ picks (i + n) k m.
Proof.
  unfold picks. rewrite seq_app, map_app. f_equal.
  rewrite map_seq_from. apply map_ext. intros j. f_equal. lia.
Qed.

Lemma picks_shift i k n : picks (i + k) k n = picks i k n.
Proof.
  unfold picks. apply map_ext. intros j.
  replace (i + k + j) with (i + j + 1 * k) by lia.
  apply Nat.Div0.mod_add.
Qed.

Lemma count_picks_turns p i k r : forall q,
  p < k ->
  count_occ Nat.eq_dec (picks i k (q * k + r)) p =
  q + count_occ Nat.eq_dec (picks i k r) p.
Proof.
  induction q as [|q IH]; intros Hp; [reflexivity|].
  replace (S q * k + r) with (k + (q * k + r)) by lia.
  rewrite picks_app, picks_shift, count_occ_app, count_occ_turn by exact Hp.
  rewrite IH by exact Hp. lia.
Qed.

Lemma count_picks_part p i k r :
  p < k -> r <= k -> count_occ Nat.eq_dec (picks i k r) p <= 1.
Proof.
  intros Hp Hr.
  pose proof (count_occ_turn i Hp) as H1.
  assert (E : picks i k k = picks i k r ++ picks (i + r) k (k - r)).
  { rewrite <- picks_app. f_equal. lia. }
  rewrite E, count_occ_app in H1. lia.
Qed.

(** In [n] selections each position of a pool of [k] comes up the floor or
    the ceiling of [n / k] times. *)
Lemma count_picks p i k n :
  p < k ->
  let times := count_occ Nat.eq_dec (picks i k n) p in
  times = n / k \/ times = (n + k - 1) / k.
Proof.
  intros Hp times.
  pose proof (Nat.div_mod_eq n k) as Hn.
  pose proof (Nat.mod_upper_bound n k ltac:(lia)) as Hr.
  assert (Ht : times = n / k + count_occ Nat.eq_dec (picks i k (n mod k)) p).
  { unfold times. rewrite Hn at 1.
    rewrite (Nat.mul_comm k (n / k)). now apply count_picks_turns. }
  pose proof (@count_picks_part p i k (n mod k) Hp ltac:(lia)) as Hc.
  destruct (count_occ Nat.eq_dec (picks i k (n mod k)) p) as [|[|c]] eqn:E;
    [left; lia | right | lia].
  assert (Hpos : 0 < n mod k).
  { destruct (n mod k); [discriminate E | lia]. }
  rewrite Ht. apply (Nat.div_unique _ k _ (n mod k - 1)); lia.
Qed.

Lemma picks_last i k n : picks i k (S n) = picks i k n ++ [(i + n) mod k].
Proof.
  unfold picks. rewrite seq_S, map_app. reflexivity.
Qed.

Lemma picks_cons i k n : picks i k (S n) = i mod k :: picks (i + 1) k n.
Proof.
  change (S n) with (1 + n). rewrite picks_app. unfold picks at 1. simpl.
  now rewrite Nat.add_0_r.
Qed.

Lemma picks_mod i k n : picks (i mod k) k n = picks i k n.
Proof.
  unfold picks. apply map_ext. intros j. apply Nat.Div0.add_mod_idemp_l.
Qed.

Lemma post_many_rotates env r posts : forall w,
  _current_index w < List.length (instances r) ->
  let k := List.length (instances r) in
  let w' := post_many env r posts w in
  selections (trace w') =
    selections (trace w) ++
    map (fun p => nth p (instances r) EmptyString)
      (picks (_current_index w) k (List.length posts)) /\
  _current_index w' = (_current_index w + List.length posts) mod k.
Proof.
  induction posts as [|[c text] rest IH]; intros w Hi k w'.
  - unfold w'. simpl. rewrite app_nil_r, Nat.add_0_r.
    split; [reflexivity|]. symmetry. now apply Nat.mod_small.
  - assert (Hnth : nth_error (instances r) (_current_index w) =
                   Some (nth (_current_index w) (instances r) EmptyString))
      by now apply nth_error_nth'.
    destruct (post_reply_selects env r c text w Hnth) as [Hidx Hsel].
    set (w1 := exec (post_reply env r c text) w) in *.
    assert (Hi1 : _current_index w1 < List.length (instances r)).
    { rewrite Hidx. apply Nat.mod_upper_bound. lia. }
    destruct (IH w1 Hi1) as [IHsel IHidx].
    change (post_many env r ((c, text) :: rest) w) with (post_many env r rest w1) in w'.
    fold k in IHsel, IHidx, Hidx. fold w' in IHsel, IHidx.
    split.
    + rewrite IHsel, Hsel, <- app_assoc. f_equal.
      cbn [List.length]. rewrite picks_cons. cbn [map app].
      fold k in Hi. rewrite (Nat.mod_small _ _ Hi). f_equal.
      rewrite Hidx. now rewrite picks_mod.
    + rewrite IHidx, Hidx. cbn [List.length].
      rewrite Nat.Div0.add_mod_idemp_l. f_equal. lia.
Qed.

(** C7. Over a non-empty pool of [k] sessions, [n] calls of [post_reply] in a
    row, whatever they post and however they end, select the sessions in
    cyclic order from the position where the previous call left the cursor:
    the [j]-th call selects position [(i + j) mod k].  The cursor ends at
    [(i + n) mod k], and every position of the pool is selected the floor or
    the ceiling of [n / k] times. *)
Theorem rotation_round_robin (env : Env) (r : Replier)
  (posts : list (Comment * string)) (w : World) :
  let k := List.length (instances r) in
  let n := List.length posts in
  let i := _current_index w in
  i < k ->
  let w' := post_many env r posts w in
  selections (trace w') =
    selections (trace w) ++
    map (fun p => nth p (instances r) EmptyString) (picks i k n) /\
  _current_index w' = (i + n) mod k /\
  forall p, p < k ->
    let times := count_occ Nat.eq_dec (picks i k n) p in
    times = n / k \/ times = (n + k - 1) / k.
Proof.
  intros k n i Hi w'.
  destruct (post_many_rotates env r posts w Hi) as [Hsel Hidx].
  split; [exact Hsel|]. split; [exact Hidx|].
  intros p Hp. now apply count_picks.
Qed.

Lemma rotation_round_robin_witness :
  let env := platform [] [] in
  let posts := repeat (sample "c1" 1001 "I love Rust", "Nice point."%string) 7 in
  let w := exec (post_reply env pool3 (sample "c0" 999 "old") "hi") (boot None 0) in
  let w' := post_many env pool3 posts w in
  _current_index w = 1 /\
  selections (trace w') =
    ["alice"; "bob"; "carol"; "alice"; "bob"; "carol"; "alice"; "bob"]%string /\
  _current_index w' = 2 /\
  forall p, p < 3 ->
    let times := count_occ Nat.eq_dec (picks 1 3 7) p in
    times = 2 \/ times = 3.
Proof.
  intros env posts w w'. split; [reflexivity|].
  apply (rotation_round_robin env pool3 posts w). simpl. lia.
Defined.

(** *** Retries *)

Lemma retry_items_none env c text items : forall w,
  filter is_ratelimit items = [] ->
  retry_items env c text items w = (Ret None, w).
Proof.
  induction items as [|item rest IH]; intros w H; [reflexivity|].
  rewrite retry_items_cons. simpl in H.
  destruct (is_ratelimit item); [discriminate | now apply IH].
Qed.

Lemma retry_rounds_none env c text items rounds w :
  filter is_ratelimit items = [] ->
  retry_rounds env c text items rounds w = (Ret false, w).
Proof.
  intros H. induction rounds as [|n IH]; [reflexivity|].
  cbn [retry_rounds]. unfold bind. rewrite retry_items_none by exact H. exact IH.
Qed.

Lemma retry_step_fields wait cid text w :
  let w' := retry_step wait cid text w in
  trace w' = trace w ++ [EvSleep wait; EvReply cid text] /\
  replies w' = S (replies w) /\
  now w' = (now w + wait)%Z /\
  _current_index w' = _current_index w /\
  _data w' = _data w.
Proof.
  unfold retry_step. simpl. rewrite <- app_assoc. repeat split.
Qed.








(** C9, on the code: a post that succeeds at its first attempt is followed by
    the sleep of [reply_delay], but a post that succeeds at a retry returns
    [True] right after the attempt; the only sleep is the rate-limit wait. *)
Lemma retry_success_skips_delay :
  let c := sample "c1" 1001 "I love Rust" in
  let w := boot None 5000 in
  let direct := post_reply (platform [None] []) pool3 c "hi" w in
  let retried :=
    post_reply (platform [Some (rate_limited "2 minutes"); None] []) pool3 c "hi" w in
  fst direct = Ret true /\
  trace (snd direct) = [EvMe "alice"%string; EvReply "c1" "hi"; EvSleep 10] /\
  fst retried = Ret true /\
  trace (snd retried) =
    [EvMe "alice"%string; EvReply "c1" "hi"; EvSleep 120; EvReply "c1" "hi"] /\
  ~ In (EvSleep (reply_delay pool3)) (trace (snd retried)) /\
  now (snd retried) = 5120%Z.
Proof.
  repeat split. simpl. intros [H|[H|[H|[H|[]]]]]; discriminate.
Qed.

(** C10 (as amended). When the first attempt of a post raises an API
    exception none of whose items is a rate-limit entry, [post_reply] returns
    [False]; it has made that one attempt only and has not slept. *)
Theorem no_ratelimit_entry_fails (env : Env) (r : Replier) (c : Comment)
  (text : string) (w : World) (instance : Reddit) (items : list api_item) :
  nth_error (instances r) (_current_index w) = Some instance ->
  comment_reply env (replies w) = Some (RedditAPIException items) ->
  (forall item, In item items -> error_type item <> "RATELIMIT"%string) ->
  let w' := exec (post_reply env r c text) w in
  result (post_reply env r c text) w = Ret false /\
  trace w' = trace w ++ [EvMe instance; EvReply (id c) text] /\
  replies w' = S (replies w) /\
  sleeps (trace w') = sleeps (trace w) /\
  now w' = now w.
Proof.
  intros Hnth Hfirst Hnone w'.
  assert (Hf : filter is_ratelimit items = []).
  { clear Hfirst. induction items as [|item rest IH]; [reflexivity|].
    simpl. unfold is_ratelimit at 1.
    destruct (String.eqb_spec (error_type item) "RATELIMIT") as [E|_].
    - exfalso. apply (Hnone item); [now left | exact E].
    - apply IH. intros it Hit. apply Hnone. now right. }
  unfold w', exec, result.
  rewrite (post_reply_run env r c text w Hnth), Hfirst. cbv zeta.
  rewrite (retry_rounds_none env c text items 3 _ Hf). simpl.
  rewrite <- app_assoc. repeat split.
  unfold sleeps. rewrite !flat_map_app. simpl. now rewrite app_nil_r.
Qed.

Lemma no_ratelimit_entry_fails_witness :
  let denied := RedditAPIException
                  [{| error_type := "THREAD_LOCKED"; message := "locked" |}] in
  let env := platform [Some denied; None] [] in
  let c := sample "c1" 1001 "I love Rust" in
  let w := boot None 5000 in
  let w' := exec (post_reply env pool3 c "hi") w in
  result (post_reply env pool3 c "hi") w = Ret false /\
  trace w' = trace w ++ [EvMe "alice"%string; EvReply (id c) "hi"] /\
  replies w' = S (replies w) /\
  sleeps (trace w') = sleeps (trace w) /\
  now w' = now w.
Proof.
  intros denied env c w w'.
  apply (@no_ratelimit_entry_fails env pool3 c "hi" w "alice"%string
           [{| error_type := "THREAD_LOCKED"; message := "locked" |}]
           eq_refl eq_refl).
  intros item [<-|[]]. discriminate.
Defined.

(** C10 as stated does not hold for an attempt that is a retry.  Below the
    first attempt is rate-limited and the first retry raises an API exception
    whose only item is not a rate-limit entry; the poster does not return: it
    sleeps twice more and makes two more attempts, which raise the same. *)
Lemma retry_exception_not_inspected :
  let locked := [{| error_type := "THREAD_LOCKED"; message := "locked" |}] in
  let env := platform [Some (rate_limited "2 minutes");
                       Some (RedditAPIException locked);
                       Some (RedditAPIException locked);
                       Some (RedditAPIException locked)] [] in
  let c := sample "c1" 1001 "I love Rust" in
  let w := boot None 5000 in
  let w' := exec (post_reply env pool3 c "hi") w in
  comment_reply env 1 = Some (RedditAPIException locked) /\
  (forall item, In item locked -> error_type item <> "RATELIMIT"%string) /\
  result (post_reply env pool3 c "hi") w = Ret false /\
  trace w' =
    [EvMe "alice"%string; EvReply "c1" "hi";
     EvSleep 120; EvReply "c1" "hi";
     EvSleep 120; EvReply "c1" "hi";
     EvSleep 120; EvReply "c1" "hi"] /\
  sleeps (trace w') = [120; 120; 120]%Z /\
  replies w' = 4 /\
  now w' = 5360%Z.
Proof.
  repeat split. intros item [<-|[]]. discriminate.
Qed.

(** ** reddit_bot.py: the cycle *)

Lemma loop_step_refl w : loop_step w w.
Proof.
  repeat split; try lia. exists []. now rewrite app_nil_r.
Qed.

Lemma loop_step_trans w1 w2 w3 :
  loop_step w1 w2 -> loop_step w2 w3 -> loop_step w1 w3.
Proof.
  intros (N1 & D1 & e1 & T1 & E1) (N2 & D2 & e2 & T2 & E2).
  repeat split; try congruence; try lia.
  exists (e1 ++ e2). split.
  - now rewrite T2, T1, app_assoc.
  - apply Forall_app. split; [exact E1|]. now rewrite <- D1.
Qed.

Lemma loop_step_emit w e :
  loop_event (data_last_run_time (_data w)) e -> loop_step w (emit e w).
Proof.
  intros He. repeat split; simpl; try lia.
  exists [e]. split; [reflexivity|]. now constructor.
Qed.

Lemma extends_loop_step w w' : extends poster_event w w' -> loop_step w w'.
Proof.
  intros ((evs & Ht & He) & Hn & Hd & _).
  repeat split; try congruence.
  exists evs. split; [exact Ht|].
  eapply Forall_impl; [|exact He].
  intros e. destruct e; simpl; tauto.
Qed.

Lemma mark_replied_step comment_id w :
  result (mark_replied comment_id) w = Ret tt /\
  loop_step w (exec (mark_replied comment_id) w).
Proof.
  unfold result, exec.
  destruct (mem comment_id (replied_ids (_data w))) eqn:E.
  - rewrite mark_replied_known by exact E. split; [reflexivity|apply loop_step_refl].
  - rewrite mark_replied_new by exact E. split; [reflexivity|].
    cbv zeta. cbn [snd]. repeat split; simpl; try lia.
    eexists [_]. split; [reflexivity|]. repeat constructor.
Qed.

(** The [try] block for one comment never raises and keeps the cursor. *)
Lemma attempt_step env replier comment w :
  (exists posted, result (attempt env replier comment) w = Ret posted) /\
  loop_step w (exec (attempt env replier comment) w).
Proof.
  unfold result, exec, attempt, try_, bind, generate_reply, bind, get, modify.
  cbn [fst snd].
  set (w0 := count_generation (emit (EvGenerate (id comment)) w)).
  assert (H0 : loop_step w w0).
  { repeat split; simpl; try lia. eexists [_]. split; [reflexivity|].
    repeat constructor. }
  destruct (llm_generate env (generations w) comment) as [text|];
    [|split; [now eexists | exact H0]].
  cbn [ret].
  destruct (nth_error (instances replier) (_current_index w0)) as [instance|] eqn:Hnth.
  - pose proof (post_reply_extends env replier comment text w0 Hnth) as Hext.
    apply extends_loop_step in Hext. unfold exec in Hext.
    assert (H1 : loop_step w (snd (post_reply env replier comment text w0))).
    { eapply loop_step_trans; [exact H0|].
      eapply loop_step_trans; [|exact Hext].
      repeat split; simpl; try lia. eexists [_]. split; [reflexivity|].
      repeat constructor. }
    destruct (post_reply env replier comment text w0) as [[[|]|e] w1];
      cbn [snd] in H1; try (split; [now eexists | exact H1]).
    destruct (mark_replied_step (id comment) w1) as [Hres Hstep].
    unfold result, exec in Hres, Hstep.
    destruct (mark_replied (id comment) w1) as [o w2]. cbn [fst snd] in *.
    subst o. split; [now eexists|].
    eapply loop_step_trans; eassumption.
  - rewrite (post_reply_empty env replier comment text w0 Hnth).
    split; [now eexists | exact H0].
Qed.

(** *** What the generation and the post leave alone *)

Lemma poster_quiet evs : Forall poster_event evs -> quiet evs.
Proof.
  apply Forall_impl. intros e. destruct e; simpl; intros H;
    try reflexivity; contradiction.
Qed.

Lemma calm_refl w : calm w w.
Proof.
  split; [reflexivity|]. exists []. split; [now rewrite app_nil_r | constructor].
Qed.

Lemma calm_trans w1 w2 w3 : calm w1 w2 -> calm w2 w3 -> calm w1 w3.
Proof.
  intros (D1 & e1 & T1 & Q1) (D2 & e2 & T2 & Q2).
  split; [congruence|]. exists (e1 ++ e2).
  split; [now rewrite T2, T1, app_assoc | now apply Forall_app].
Qed.

Lemma post_reply_calm env r c text w : calm w (exec (post_reply env r c text) w).
Proof.
  destruct (nth_error (instances r) (_current_index w)) as [instance|] eqn:Hnth.
  - destruct (post_reply_extends env r c text w Hnth) as ((evs & Ht & Hevs) & _ & Hd & _).
    split; [exact Hd|]. exists (EvMe instance :: evs).
    split; [rewrite Ht; cbn [trace emit set_index]; now rewrite <- app_assoc|].
    constructor; [reflexivity | now apply poster_quiet].
  - unfold exec. rewrite (post_reply_empty env r c text w Hnth). apply calm_refl.
Qed.

Lemma posted_world_calm env replier comment w :
  calm w (posted_world env replier comment w).
Proof.
  assert (H0 : calm w (generated comment w)).
  { split; [reflexivity|]. exists [EvGenerate (id comment)].
    split; [reflexivity | repeat constructor]. }
  unfold posted_world.
  destruct (llm_generate env (generations w) comment) as [text|]; [|exact H0].
  eapply calm_trans; [exact H0 | apply post_reply_calm].
Qed.

(** The [try] block for one comment: the record is made when the post has
    succeeded, and only then. *)
Lemma attempt_unfold env replier comment w :
  attempt env replier comment w =
  if posts env replier comment w
  then (Ret 1%Z, exec (mark_replied (id comment)) (posted_world env replier comment w))
  else (Ret 0%Z, posted_world env replier comment w).
Proof.
  unfold attempt, posts, posted_world, result, exec, try_, bind, generate_reply,
    bind, get, modify.
  cbn [fst snd]. fold (generated comment w).
  destruct (llm_generate env (generations w) comment) as [text|]; [|reflexivity].
  cbn [ret].
  destruct (post_reply env replier comment text (generated comment w))
    as [[[|]|e] w1]; cbn [fst snd]; try reflexivity.
  destruct (mark_replied_step (id comment) w1) as [Hres _]. unfold result in Hres.
  destruct (mark_replied (id comment) w1) as [o w2]. cbn [fst snd] in *.
  now subst o.
Qed.

(** The reply loop always comes to its end, and keeps the cursor. *)
Lemma reply_loop_step env config replier comments : forall replies_posted w,
  (exists n, result (reply_loop env config replier comments replies_posted) w = Ret n) /\
  loop_step w (exec (reply_loop env config replier comments replies_posted) w).
Proof.
  induction comments as [|comment rest IH]; intros replies_posted w.
  - split; [now eexists | apply loop_step_refl].
  - unfold result, exec in *. cbn [reply_loop].
    destruct (replies_posted >=? max_replies config)%Z;
      [split; [now eexists | apply loop_step_refl]|].
    unfold bind, is_replied, get. cbn [fst snd].
    destruct (mem (id comment) (replied_ids (_data w))); [apply IH|].
    destruct (attempt_step env replier comment w) as [[posted Hres] Hstep].
    unfold result, exec in Hres, Hstep.
    destruct (attempt env replier comment w) as [o w1]. cbn [fst snd] in *.
    subst o.
    destruct (IH (replies_posted + posted)%Z w1) as [Hn Hs].
    split; [exact Hn|]. eapply loop_step_trans; eassumption.
Qed.

Lemma run_once_fetch_fails env config replier w e :
  snd (cycle_fetch env config w) = Some e ->
  run_once env config replier w =
  (Raise e, count_fetch (emit (EvFetch (target config) (cursor w)) w)).
Proof.
  unfold cycle_fetch, run_once, bind, last_run_time, get. cbn [fst snd].
  fold (cursor w).
  destruct (String.eqb (mode config) "user"); intros H;
    unfold list_, get_user_comments, get_subreddit_comments, bind, get, modify, ret;
    cbn [fst snd fetches emit]; rewrite H; reflexivity.
Qed.





(** *** The run loop *)

Lemma main_fetch_fails env config replier fuel w e :
  snd (cycle_fetch env config w) = Some e ->
  main env config replier (S fuel) w =
  (Uncaught e, count_fetch (emit (EvFetch (target config) (cursor w)) w)).
Proof.
  intros H. cbn [main]. now rewrite (run_once_fetch_fails env config replier w H).
Qed.

(** C3, on the code: a fetch that fails is not retried and nothing is posted
    or recorded, but the exception leaves [run_once] and the run loop, which
    handles [KeyboardInterrupt] only: the process ends at its first failed
    fetch, however many cycles it was to run. *)
Lemma fetch_error_ends_process :
  forall fuel,
    let env := platform [] [] in
    let config := watch_user "bob" true in
    let w := boot None 7000 in
    snd (cycle_fetch env config w) = Some RequestException /\
    fst (main env config pool3 (S fuel) w) = Uncaught RequestException /\
    trace (snd (main env config pool3 (S fuel) w)) = [EvFetch "bob" 0] /\
    _data (snd (main env config pool3 (S fuel) w)) = _data w.
Proof.
  intros fuel env config w.
  assert (H : snd (cycle_fetch env config w) = Some RequestException) by reflexivity.
  rewrite (main_fetch_fails env config pool3 fuel w H).
  repeat split; exact H.
Qed.

(** ** Scenarios *)

Example forum_mode_skips_old :
  let l := Item (sample "c0" 999 "a") (Item (sample "c1" 1001 "b")
             (Item (sample "c2" 1002 "c") Done)) in
  map id (fst (subreddit_loop l 1000 None)) = ["c1"; "c2"]%string.
Proof. reflexivity. Qed.

Example user_mode_stops_at_first_old :
  let l := Item (sample "c0" 999 "a") (Item (sample "c1" 1001 "b")
             (Item (sample "c2" 1002 "c") Done)) in
  fst (user_loop l 1000) = [] /\
  map id (fst (user_loop (Item (sample "c2" 1002 "c") (Item (sample "c1" 1001 "b")
             (Item (sample "c0" 999 "a") Done))) 1000)) = ["c2"; "c1"]%string.
Proof. split; reflexivity. Qed.

Example cursor_boundary_excluded :
  fst (user_loop (Item (sample "c1" 1000 "b") Done) 1000) = [] /\
  fst (subreddit_loop (Item (sample "c1" 1000 "b") Done) 1000 None) = [].
Proof. split; reflexivity. Qed.

Example keywords_any_case :
  _matches_keywords "I love Rust" ["rust"; "go"]%string = true /\
  _matches_keywords "I love Python" ["rust"; "go"]%string = false.
Proof. split; reflexivity. Qed.

(** A cap of 2 replies on 3 new comments: 2 are answered, the third is left
    unmarked, and the cursor moves all the same. *)
Example cap_defers_third :
  let env := platform [] [Item (sample "c3" 6003 "c") (Item (sample "c2" 6002 "b")
                            (Item (sample "c1" 6001 "a") Done))] in
  let config := {| mode := "user"; target := "bob"; keywords := [];
                   sleep_duration := 30; max_replies := 2; loop := false |} in
  let w' := exec (run_once env config pool3) (boot None 7000) in
  result (run_once env config pool3) (boot None 7000) = Ret 2%Z /\
  replied_ids (_data w') = ["c3"; "c2"]%string /\
  cursor w' = 7020%Z.
Proof. repeat split. Qed.

(** A run of two cycles in continuous mode. *)
Example two_cycles :
  let env := platform [] [Item (sample "c1" 6001 "a") Done; Done] in
  let w' := snd (main env (watch_user "bob" true) pool3 2 (boot None 7000)) in
  fst (main env (watch_user "bob" true) pool3 2 (boot None 7000)) = Looping /\
  fetched (trace w') = [("bob", 0%Z); ("bob", 7010%Z)]%string /\
  map data_last_run_time (saves (trace w')) = [Some 0; Some 7010; Some 7040]%Z.
Proof. repeat split. Qed.

(* ===================================================================== *)
(** * Part III: further properties of the code                            *)
(* ===================================================================== *)

(** ** state.py: lookup and insertion *)

(** X1. Lookup after insertion: whatever the state was (even a file without
    the list), an identifier is reported as replied right after
    [mark_replied] of it. *)
Theorem is_replied_after_mark (comment_id : string) (w : World) :
  result (is_replied comment_id) (exec (mark_replied comment_id) w) = Ret true.
Proof.
  unfold result, is_replied, get. cbn [fst]. f_equal.
  rewrite mark_replied_ids.
  destruct (mem comment_id (replied_ids (_data w))) eqn:E; [exact E|].
  destruct (@last_n_app_last _ 1000 (replied_ids (_data w)) comment_id)
    as [l' ->]; [lia|].
  apply mem_In, in_or_app. right. now left.
Qed.

Lemma mem_app x a b : mem x (a ++ b) = mem x a || mem x b.
Proof. unfold mem. apply existsb_app. Qed.

(** X2. While the list has room (fewer than 1000 identifiers), marking an
    identifier changes the answer of [is_replied] for that identifier only:
    nothing is forgotten. *)
Theorem mark_replied_keeps_others (comment_id other : string) (w : World) :
  List.length (replied_ids (_data w)) < 1000 ->
  result (is_replied other) (exec (mark_replied comment_id) w) =
  Ret (mem other (replied_ids (_data w)) || String.eqb other comment_id).
Proof.
  intros Hroom. unfold result, is_replied, get. cbn [fst]. f_equal.
  rewrite mark_replied_ids.
  destruct (mem comment_id (replied_ids (_data w))) eqn:E.
  - destruct (String.eqb_spec other comment_id) as [->|_].
    + now rewrite E.
    + now rewrite orb_false_r.
  - rewrite last_n_short by (rewrite length_app; simpl; lia).
    rewrite mem_app. simpl. now rewrite orb_false_r.
Qed.

Lemma mark_replied_keeps_others_witness :
  let w := boot (Some {| data_last_run_time := Some 1000%Z;
                         data_replied_ids := Some ["k1"; "k2"]%string |}) 2000 in
  result (is_replied "k1") (exec (mark_replied "k3") w) = Ret true /\
  result (is_replied "k4") (exec (mark_replied "k3") w) = Ret false.
Proof.
  intros w. split.
  - apply (@mark_replied_keeps_others "k3" "k1" w). simpl. lia.
  - apply (@mark_replied_keeps_others "k3" "k4" w). simpl. lia.
Defined.

(** ** monitor.py: keywords, bounds and failures *)

Lemma contains_occurs w s :
  contains w s = true <-> exists pre post, s = pre ++ w ++ post.
Proof.
  split.
  - induction s as [|c t IH]; simpl; intros H.
    + rewrite orb_false_r in H. destruct (startswith_split _ _ H) as [post ->].
      now exists [], post.
    + apply orb_true_iff in H as [H|H].
      * destruct (startswith_split _ _ H) as [post ->]. now exists [], post.
      * destruct (IH H) as (pre & post & ->). now exists (c :: pre), post.
  - intros (pre & post & ->).
    induction pre as [|c pre IH].
    + cbn [app]. pose proof (startswith_app w post) as H.
      destruct (w ++ post); cbn [contains]; now rewrite H.
    + cbn [app contains]. rewrite IH. apply orb_true_r.
Qed.

(** X4. [_matches_keywords] accepts a text exactly when one of the keywords,
    lower-cased, occurs as a substring of the lower-cased text.  So no text
    passes an empty keyword list, and every text passes a list that holds the
    empty keyword. *)
Theorem matches_keywords_occurs (text : string) (keywords : list string) :
  (_matches_keywords text keywords = true <->
   exists kw pre post,
     In kw keywords /\ lower (chars text) = pre ++ lower (chars kw) ++ post) /\
  _matches_keywords text [] = false /\
  (In EmptyString keywords -> _matches_keywords text keywords = true).
Proof.
  assert (Hiff : _matches_keywords text keywords = true <->
                 exists kw pre post,
                   In kw keywords /\
                   lower (chars text) = pre ++ lower (chars kw) ++ post).
  { unfold _matches_keywords. rewrite existsb_exists. split.
    - intros (kw & Hin & Hc). apply contains_occurs in Hc as (pre & post & E).
      now exists kw, pre, post.
    - intros (kw & pre & post & Hin & E). exists kw. split; [exact Hin|].
      apply contains_occurs. now exists pre, post. }
  split; [exact Hiff|]. split; [reflexivity|].
  intros Hin. apply Hiff.
  exists EmptyString, [], (lower (chars text)). split; [exact Hin | reflexivity].
Qed.

Lemma matches_keywords_occurs_witness :
  _matches_keywords "I love Rust" ["go"; ""]%string = true.
Proof.
  apply (proj2 (proj2 (matches_keywords_occurs "I love Rust" ["go"; ""]%string))).
  simpl. right. now left.
Defined.

Lemma length_items_limit n : forall l, List.length (items_of (limit n l)) <= n.
Proof.
  induction n as [|n IH]; intros [|c rest|e]; simpl; try lia.
  specialize (IH rest). lia.
Qed.

Lemma length_take_while {A} (p : A -> bool) l :
  List.length (take_while p l) <= List.length l.
Proof.
  induction l as [|x t IH]; simpl; [lia|]. destruct (p x); simpl; lia.
Qed.

(** X5. A fetch never yields more than 100 comments, in either mode. *)
Theorem fetch_at_most_100 (env : Env) (target : string) (since : Z)
  (keywords : option (list string)) (w : World) :
  (exists g w', get_user_comments env target since w = (Ret g, w') /\
                List.length (fst g) <= 100) /\
  (exists g w', get_subreddit_comments env target since keywords w = (Ret g, w') /\
                List.length (fst g) <= 100).
Proof.
  split; eexists _, _; (split; [reflexivity|]).
  - rewrite user_loop_prefix.
    etransitivity; [apply length_take_while | apply length_items_limit].
  - rewrite subreddit_loop_filter.
    etransitivity; [apply filter_length_le | apply length_items_limit].
Qed.

Lemma subreddit_loop_breaks l since keywords :
  snd (subreddit_loop l since keywords) = breaks l.
Proof.
  induction l as [|c rest IH|e]; simpl; try reflexivity.
  destruct (subreddit_loop rest since keywords) as [ys fin]. simpl in IH. subst fin.
  destruct (created_utc c <=? since)%Z; [reflexivity|].
  destruct (truthy keywords && _)%bool; reflexivity.
Qed.

Lemma user_loop_breaks l since :
  snd (user_loop l since) =
  if forallb (newer since) (items_of l) then breaks l else None.
Proof.
  induction l as [|c rest IH|e]; simpl; try reflexivity.
  unfold newer at 1.
  destruct (created_utc c >? since)%Z; [|reflexivity].
  destruct (user_loop rest since) as [ys fin]. simpl in *. exact IH.
Qed.

Lemma breaks_limit n : forall l,
  n <= List.length (items_of l) -> breaks (limit n l) = None.
Proof.
  induction n as [|n IH]; intros [|c rest|e] H; simpl in *;
    try lia; try reflexivity.
  apply IH. lia.
Qed.

(** X6. A fetch fails exactly when the listing breaks where the fetch reads
    it.  Forum mode reads the first 100 comments, so it raises the exception
    on which the listing breaks among them; user mode stops reading at the
    first comment at or below the cursor, so it raises only when every
    comment before the break is newer than the cursor.  A listing that hands
    out 100 comments or more never fails the fetch: what comes behind the
    100th comment is not read. *)
Theorem fetch_failure (env : Env) (target : string) (since : Z)
  (keywords : option (list string)) (w : World) :
  let users := limit 100 (redditor_comments_new env target (fetches w)) in
  let forum := limit 100 (subreddit_comments env target (fetches w)) in
  (exists g w', get_subreddit_comments env target since keywords w = (Ret g, w') /\
                snd g = breaks forum) /\
  (exists g w', get_user_comments env target since w = (Ret g, w') /\
                snd g = if forallb (newer since) (items_of users)
                        then breaks users else None) /\
  (forall l, 100 <= List.length (items_of l) -> breaks (limit 100 l) = None).
Proof.
  intros users forum. split; [|split].
  - eexists _, _. split; [reflexivity|]. apply subreddit_loop_breaks.
  - eexists _, _. split; [reflexivity|]. apply user_loop_breaks.
  - intros l. apply breaks_limit.
Qed.

(** A listing that breaks behind an old comment: user mode does not see the
    failure, forum mode raises it.  A listing that breaks right behind its
    100th comment fails neither. *)
Lemma fetch_failure_witness :
  let l := Item (sample "c2" 1002 "c") (Item (sample "c0" 999 "a")
             (Broken RequestException)) in
  let hundred := Nat.iter 100 (Item (sample "c2" 1002 "c")) (Broken RequestException) in
  snd (user_loop (limit 100 l) 1000) = None /\
  snd (subreddit_loop (limit 100 l) 1000 None) = Some RequestException /\
  breaks hundred = Some RequestException /\
  breaks (limit 100 hundred) = None.
Proof.
  intros l hundred. split; [reflexivity|]. split; [reflexivity|].
  split; [reflexivity|].
  apply (proj2 (proj2 (fetch_failure (platform [] []) "bob" 0 None (boot None 0)))).
  vm_compute. apply le_n.
Defined.

(** ** replier.py: one attempt, many attempts *)

(** X7. When the first attempt is answered by anything but an API exception
    (permission denied, a network failure, ...), [post_reply] returns [False]
    after that one attempt: no retry, no sleep. *)
Theorem post_reply_no_retry (env : Env) (r : Replier) (c : Comment)
  (text : string) (w : World) (instance : Reddit) (e : exn) :
  nth_error (instances r) (_current_index w) = Some instance ->
  comment_reply env (replies w) = Some e ->
  ~ api_error (Some e) ->
  let w' := exec (post_reply env r c text) w in
  result (post_reply env r c text) w = Ret false /\
  trace w' = trace w ++ [EvMe instance; EvReply (id c) text] /\
  replies w' = S (replies w) /\
  now w' = now w.
Proof.
  intros Hnth Hfirst Hnot w'.
  unfold w', exec, result.
  rewrite (post_reply_run env r c text w Hnth), Hfirst. cbv zeta.
  destruct e; try (simpl; rewrite <- app_assoc; repeat split).
  exfalso. apply Hnot. now eexists.
Qed.

Lemma post_reply_no_retry_witness :
  let env := platform [Some Forbidden; None] [] in
  let c := sample "c1" 1001 "I love Rust" in
  let w := boot None 5000 in
  let w' := exec (post_reply env pool3 c "hi") w in
  result (post_reply env pool3 c "hi") w = Ret false /\
  trace w' = trace w ++ [EvMe "alice"%string; EvReply (id c) "hi"] /\
  replies w' = S (replies w) /\
  now w' = now w.
Proof.
  intros env c w w'.
  apply (@post_reply_no_retry env pool3 c "hi" w "alice"%string Forbidden
           eq_refl eq_refl).
  intros [items H]. discriminate H.
Defined.

(** X8. When the first attempt is acknowledged, [post_reply] sleeps
    [reply_delay] and returns [True]; but with a negative [reply_delay] the
    sleep raises, the handler for any exception takes over, and [post_reply]
    returns [False] although the reply has been posted. *)
Theorem post_reply_acknowledged (env : Env) (r : Replier) (c : Comment)
  (text : string) (w : World) (instance : Reddit) :
  nth_error (instances r) (_current_index w) = Some instance ->
  comment_reply env (replies w) = None ->
  let w' := exec (post_reply env r c text) w in
  replies w' = S (replies w) /\
  ((0 <= reply_delay r)%Z ->
   result (post_reply env r c text) w = Ret true /\
   trace w' = trace w ++ [EvMe instance; EvReply (id c) text; EvSleep (reply_delay r)] /\
   now w' = (now w + reply_delay r)%Z) /\
  ((reply_delay r < 0)%Z ->
   result (post_reply env r c text) w = Ret false /\
   trace w' = trace w ++ [EvMe instance; EvReply (id c) text] /\
   now w' = now w).
Proof.
  intros Hnth Hfirst w'.
  unfold w', exec, result.
  rewrite (post_reply_run env r c text w Hnth), Hfirst. cbv zeta.
  destruct (Z.ltb_spec (reply_delay r) 0) as [Hneg|Hpos]; simpl.
  - split; [reflexivity|]. split; [lia|]. intros _.
    rewrite <- app_assoc. repeat split.
  - split; [reflexivity|]. split; [|lia]. intros _.
    rewrite <- !app_assoc. repeat split.
Qed.

Lemma post_reply_acknowledged_witness :
  let env := platform [None] [] in
  let hasty := {| instances := ["alice"%string]; reply_delay := -5 |} in
  let c := sample "c1" 1001 "I love Rust" in
  let w := boot None 5000 in
  result (post_reply env pool3 c "hi") w = Ret true /\
  now (exec (post_reply env pool3 c "hi") w) = 5010%Z /\
  result (post_reply env hasty c "hi") w = Ret false /\
  replies (exec (post_reply env hasty c "hi") w) = 1.
Proof.
  intros env hasty c w.
  destruct (@post_reply_acknowledged env pool3 c "hi" w "alice"%string
              eq_refl eq_refl) as (_ & Hok & _).
  destruct (@post_reply_acknowledged env hasty c "hi" w "alice"%string
              eq_refl eq_refl) as (Hposted & _ & Hneg).
  destruct (Hok ltac:(simpl; lia)) as (Hres & _ & Hnow).
  destruct (Hneg ltac:(simpl; lia)) as (Hres' & _ & _).
  split; [exact Hres|]. split; [exact Hnow|]. split; [exact Hres'|exact Hposted].
Defined.

(** *** Any number of rate-limit entries *)

Lemma sleeps_app a b : sleeps (a ++ b) = sleeps a ++ sleeps b.
Proof. unfold sleeps. apply flat_map_app. Qed.

Lemma retry_step_sleeps wait cid text w :
  sleeps (trace (retry_step wait cid text w)) = sleeps (trace w) ++ [wait].
Proof.
  destruct (retry_step_fields wait cid text w) as (-> & _).
  now rewrite sleeps_app.
Qed.

Lemma retry_items_bound env c text items : forall w,
  let w' := exec (retry_items env c text items) w in
  exists k, k <= List.length (waits items) /\
    replies w' = replies w + k /\
    sleeps (trace w') = sleeps (trace w) ++ firstn k (waits items).
Proof.
  induction items as [|item rest IH]; intros w w'.
  - exists 0. unfold w', exec. simpl. rewrite app_nil_r. repeat split; lia.
  - unfold w', exec. rewrite retry_items_cons. unfold waits. cbn [filter].
    destruct (is_ratelimit item); [|apply IH].
    cbv zeta. cbn [map List.length].
    fold (retry_step (_parse_wait_time (message item)) (id c) text w).
    set (w1 := retry_step _ _ _ w).
    assert (Hr1 : replies w1 = S (replies w)) by reflexivity.
    pose proof (retry_step_sleeps (_parse_wait_time (message item)) (id c) text w)
      as Hs1. fold w1 in Hs1.
    assert (Hone : exists k, k <= S (List.length (map (fun it => _parse_wait_time (message it))
                                          (filter is_ratelimit rest))) /\
               replies w1 = replies w + k /\
               sleeps (trace w1) = sleeps (trace w) ++
                 firstn k (_parse_wait_time (message item) ::
                           map (fun it => _parse_wait_time (message it))
                             (filter is_ratelimit rest))).
    { exists 1. split; [lia|]. split; [lia|]. exact Hs1. }
    destruct (comment_reply env (replies w)) as [[]|]; cbn [snd]; try exact Hone.
    destruct (IH w1) as (k & Hk & Hr & Hs). unfold exec in Hr, Hs.
    exists (S k). split; [unfold waits in Hk; lia|]. split; [lia|].
    rewrite Hs, Hs1, <- app_assoc. reflexivity.
Qed.

Lemma firstn_Forall_In {A} k (l : list A) : Forall (fun x => In x l) (firstn k l).
Proof.
  apply Forall_forall. intros x Hx.
  rewrite <- (firstn_skipn k l). apply in_or_app. now left.
Qed.

Lemma retry_rounds_bound env c text items rounds : forall w,
  let w' := exec (retry_rounds env c text items rounds) w in
  exists ds, List.length ds <= rounds * List.length (waits items) /\
    replies w' = replies w + List.length ds /\
    sleeps (trace w') = sleeps (trace w) ++ ds /\
    Forall (fun d => In d (waits items)) ds.
Proof.
  induction rounds as [|n IH]; intros w w'.
  - exists []. unfold w', exec. simpl. rewrite app_nil_r. repeat split; try lia.
    constructor.
  - unfold w', exec. cbn [retry_rounds]. unfold bind.
    destruct (retry_items_bound env c text items w) as (k & Hk & Hr & Hs).
    unfold exec in Hr, Hs.
    assert (Hlen : List.length (firstn k (waits items)) = k)
      by (rewrite length_firstn; lia).
    assert (Hstop : exists ds,
               List.length ds <= S n * List.length (waits items) /\
               replies (snd (retry_items env c text items w)) =
                 replies w + List.length ds /\
               sleeps (trace (snd (retry_items env c text items w))) =
                 sleeps (trace w) ++ ds /\
               Forall (fun d => In d (waits items)) ds).
    { exists (firstn k (waits items)). rewrite Hlen.
      split; [lia|]. split; [exact Hr|]. split; [exact Hs|].
      apply firstn_Forall_In. }
    destruct (retry_items env c text items w) as [[[b|]|e] w1]; cbn [snd] in *;
      try exact Hstop.
    destruct (IH w1) as (ds & Hds & Hr' & Hs' & Hin). unfold exec in Hr', Hs'.
    exists (firstn k (waits items) ++ ds).
    rewrite length_app, Hlen.
    split; [lia|]. split; [lia|].
    split; [now rewrite Hs', Hs, <- app_assoc|].
    apply Forall_app. split; [apply firstn_Forall_In | exact Hin].
Qed.

(** X9. Whatever the first API exception carries, [post_reply] makes at most
    3 retries for each of its rate-limit entries, each right after one sleep,
    and every sleep is the wait parsed from one of those entries: the hints of
    the exceptions raised by the retries are never read. *)
Theorem retries_bounded (env : Env) (r : Replier) (c : Comment)
  (text : string) (w : World) (instance : Reddit) (items : list api_item) :
  nth_error (instances r) (_current_index w) = Some instance ->
  comment_reply env (replies w) = Some (RedditAPIException items) ->
  let w' := exec (post_reply env r c text) w in
  exists ds,
    List.length ds <= 3 * List.length (filter is_ratelimit items) /\
    replies w' = replies w + 1 + List.length ds /\
    sleeps (trace w') = sleeps (trace w) ++ ds /\
    Forall (fun d => In d (waits items)) ds.
Proof.
  intros Hnth Hfirst w'.
  unfold w', exec.
  rewrite (post_reply_run env r c text w Hnth), Hfirst. cbv zeta.
  set (w1 := count_reply _).
  destruct (retry_rounds_bound env c text items 3 w1) as (ds & Hds & Hr & Hs & Hin).
  unfold exec in Hr, Hs.
  exists ds. split; [|split; [|split]].
  - unfold waits in Hds. rewrite length_map in Hds. exact Hds.
  - rewrite Hr. unfold w1. simpl. lia.
  - rewrite Hs. unfold w1. simpl. rewrite !sleeps_app. simpl.
    now rewrite !app_nil_r.
  - exact Hin.
Qed.

Lemma retries_bounded_witness :
  let two := [{| error_type := "RATELIMIT"; message := "2 minutes" |};
              {| error_type := "RATELIMIT"; message := "5 seconds" |}] in
  let env := platform (repeat (Some (RedditAPIException two)) 9) [] in
  let c := sample "c1" 1001 "I love Rust" in
  let w := boot None 5000 in
  let w' := exec (post_reply env pool3 c "hi") w in
  replies w' = 7 /\
  sleeps (trace w') = [120; 5; 120; 5; 120; 5]%Z /\
  exists ds : list Z, List.length ds <= 6 /\ replies w' = 1 + List.length ds.
Proof.
  intros two env c w w'.
  split; [reflexivity|]. split; [reflexivity|].
  destruct (@retries_bounded env pool3 c "hi" w "alice"%string two eq_refl eq_refl)
    as (ds & Hds & Hr & _).
  exists ds. split; [exact Hds | exact Hr].
Defined.

(** *** The identity lookup *)

Lemma retry_items_same env1 env2 c text items :
  (forall n, comment_reply env1 n = comment_reply env2 n) ->
  forall w, retry_items env1 c text items w = retry_items env2 c text items w.
Proof.
  intros Hsame. induction items as [|item rest IH]; intros w; [reflexivity|].
  rewrite !retry_items_cons, Hsame.
  destruct (is_ratelimit item); [|apply IH].
  cbv zeta. destruct (comment_reply env2 (replies w)) as [[]|]; try reflexivity.
  apply IH.
Qed.

Lemma retry_rounds_same env1 env2 c text items rounds :
  (forall n, comment_reply env1 n = comment_reply env2 n) ->
  forall w, retry_rounds env1 c text items rounds w =
            retry_rounds env2 c text items rounds w.
Proof.
  intros Hsame. induction rounds as [|n IH]; intros w; [reflexivity|].
  cbn [retry_rounds]. unfold bind.
  rewrite (retry_items_same env1 env2 c text items Hsame w).
  destruct (retry_items env2 c text items w) as [[[b|]|e] w1]; try reflexivity.
  apply IH.
Qed.

(** X10. [post_reply] depends on the platform through the answers to its
    post attempts only.  In particular the identity lookup of
    [_get_username], whether it answers or fails, changes neither the result
    nor any effect of a post. *)
Theorem post_reply_ignores_identity (env1 env2 : Env) (r : Replier)
  (c : Comment) (text : string) (w : World) :
  (forall n, comment_reply env1 n = comment_reply env2 n) ->
  post_reply env1 r c text w = post_reply env2 r c text w.
Proof.
  intros Hsame.
  destruct (nth_error (instances r) (_current_index w)) as [instance|] eqn:Hnth.
  - rewrite !(post_reply_run _ r c text w Hnth), Hsame. cbv zeta.
    destruct (comment_reply env2 (replies w)) as [[]|]; try reflexivity.
    now apply retry_rounds_same.
  - now rewrite !post_reply_empty.
Qed.

Lemma post_reply_ignores_identity_witness :
  let answers := [Some (rate_limited "2 minutes"); None] in
  let env := platform answers [] in
  let anonymous :=
    {| redditor_comments_new := redditor_comments_new env;
       subreddit_comments := subreddit_comments env;
       llm_generate := llm_generate env;
       user_me := fun _ => None;
       comment_reply := comment_reply env |} in
  let c := sample "c1" 1001 "I love Rust" in
  post_reply anonymous pool3 c "hi" (boot None 5000) =
  post_reply env pool3 c "hi" (boot None 5000).
Proof.
  intros answers env anonymous c.
  apply post_reply_ignores_identity. intros n. reflexivity.
Defined.

(** ** reddit_bot.py: a cycle under the cap *)

Lemma run_once_unfold env config replier w :
  snd (cycle_fetch env config w) = None ->
  run_once env config replier w =
  let r := reply_loop env config replier (fst (cycle_fetch env config w)) 0%Z
             (fetched_world config w) in
  match fst r with
  | Ret n => (Ret n, stamped (snd r))
  | Raise e => (Raise e, snd r)
  end.
Proof.
  unfold cycle_fetch, fetched_world, run_once, bind, last_run_time, get.
  cbn [fst snd]. fold (cursor w).
  destruct (String.eqb (mode config) "user"); intros H;
    unfold list_, get_user_comments, get_subreddit_comments, bind, get, modify, ret;
    cbn [fst snd fetches emit]; rewrite H; cbv zeta;
    match goal with
    | |- context [reply_loop ?e ?c ?r ?cs ?z ?w0] =>
        destruct (reply_loop e c r cs z w0) as [[n|e'] w1]
    end; reflexivity.
Qed.



(** ** reddit_bot.py: the run loop *)












(** ** reddit_bot.py: no second reply *)

Lemma retry_items_post_event env c text items : forall w,
  extends (post_event (id c)) w (exec (retry_items env c text items) w).
Proof.
  induction items as [|item rest IH]; intros w.
  - apply extends_refl.
  - unfold exec in *. rewrite retry_items_cons.
    destruct (is_ratelimit item); [|apply IH].
    cbv zeta.
    set (wait := _parse_wait_time (message item)).
    set (w1 := count_reply _).
    assert (H1 : extends (post_event (id c)) w w1).
    { unfold extends, w1. simpl. pose proof (parse_wait_time_nonneg (message item)).
      fold wait in H. repeat split; try lia.
      exists [EvSleep wait; EvReply (id c) text].
      split; [now rewrite <- app_assoc|]. repeat constructor. exact H. }
    destruct (comment_reply env (replies w)) as [[]|]; try exact H1.
    eapply extends_trans; [exact H1 | apply IH].
Qed.

Lemma retry_rounds_post_event env c text items rounds : forall w,
  extends (post_event (id c)) w (exec (retry_rounds env c text items rounds) w).
Proof.
  induction rounds as [|n IH]; intros w.
  - apply extends_refl.
  - unfold exec in *. cbn [retry_rounds]. unfold bind.
    pose proof (retry_items_post_event env c text items w) as H1.
    unfold exec in H1.
    destruct (retry_items env c text items w) as [[[b|]|e] w1]; cbn [snd] in *;
      try exact H1.
    eapply extends_trans; [exact H1 | apply IH].
Qed.

Lemma post_reply_post_event env r c text w instance :
  nth_error (instances r) (_current_index w) = Some instance ->
  extends (post_event (id c))
    (emit (EvMe instance)
       (set_index ((_current_index w + 1) mod List.length (instances r)) w))
    (exec (post_reply env r c text) w).
Proof.
  intros Hnth. unfold exec. rewrite (post_reply_run env r c text w Hnth).
  cbv zeta.
  set (w0 := emit (EvMe instance) _).
  set (w1 := count_reply _).
  assert (H1 : extends (post_event (id c)) w0 w1).
  { unfold extends, w1. simpl. repeat split; try lia.
    exists [EvReply (id c) text]. split; [reflexivity|]. repeat constructor. }
  assert (H2 : (0 <= reply_delay r)%Z ->
               extends (post_event (id c)) w0
                 (advance (reply_delay r) (emit (EvSleep (reply_delay r)) w1))).
  { intros Hd. unfold extends, w1. simpl. repeat split; try lia.
    exists [EvReply (id c) text; EvSleep (reply_delay r)].
    split; [now rewrite <- app_assoc|]. repeat constructor. exact Hd. }
  destruct (comment_reply env (replies w)) as [[]|]; try exact H1.
  - eapply extends_trans; [exact H1|].
    apply (retry_rounds_post_event env c text items 3 w1).
  - destruct (Z.ltb_spec (reply_delay r) 0); [exact H1 | now apply H2].
Qed.

(** The events of the [try] block for a comment concern that comment only. *)
Lemma attempt_touches env replier comment w :
  exists evs,
    trace (exec (attempt env replier comment) w) = trace w ++ evs /\
    Forall (fun e => forall x, touches x e -> x = id comment) evs.
Proof.
  unfold exec, attempt, try_, bind, generate_reply, bind, get, modify.
  cbn [fst snd]. fold (generated comment w).
  assert (H0 : exists evs,
             trace (generated comment w) = trace w ++ evs /\
             Forall (fun e => forall x, touches x e -> x = id comment) evs).
  { exists [EvGenerate (id comment)]. split; [reflexivity|].
    constructor; [|constructor]. intros x Hx. simpl in Hx. now symmetry. }
  destruct (llm_generate env (generations w) comment) as [text|]; [|exact H0].
  cbn [ret].
  assert (H1 : exists evs,
             trace (snd (post_reply env replier comment text (generated comment w)))
               = trace w ++ evs /\
             Forall (fun e => forall x, touches x e -> x = id comment) evs).
  { destruct H0 as (evs0 & Ht0 & He0).
    destruct (nth_error (instances replier) (_current_index (generated comment w)))
      as [instance|] eqn:Hnth.
    - destruct (post_reply_post_event env replier comment text (generated comment w) Hnth)
        as ((evs & Ht & Hevs) & _).
      unfold exec in Ht. rewrite Ht. cbn [trace emit set_index]. rewrite Ht0.
      exists (evs0 ++ [EvMe instance] ++ evs). split; [now rewrite <- !app_assoc|].
      apply Forall_app. split; [exact He0|].
      apply Forall_app. split.
      + constructor; [|constructor]. intros x Hx. contradiction.
      + eapply Forall_impl; [|exact Hevs].
        intros e He x Hx. destruct e; simpl in *; try contradiction. congruence.
    - rewrite (post_reply_empty env replier comment text _ Hnth). cbn [snd].
      now exists evs0. }
  destruct (post_reply env replier comment text (generated comment w))
    as [[[|]|e] w1]; cbn [fst snd] in *; try exact H1.
  destruct H1 as (evs1 & Ht1 & He1).
  destruct (mem (id comment) (replied_ids (_data w1))) eqn:Hmem.
  - rewrite (mark_replied_known (id comment) w1 Hmem). cbn [fst snd ret].
    now exists evs1.
  - rewrite (mark_replied_new (id comment) w1 Hmem). cbv zeta. cbn [fst snd ret].
    cbn [trace emit set_data]. rewrite Ht1.
    eexists (evs1 ++ [_]). split; [now rewrite <- app_assoc|].
    apply Forall_app. split; [exact He1|].
    constructor; [|constructor]. intros x Hx. contradiction.
Qed.

Lemma reply_loop_never_repeats env config replier comments : forall posted w,
  List.length (replied_ids (_data w)) + List.length comments <= 1000 ->
  let w' := exec (reply_loop env config replier comments posted) w in
  (exists evs,
      trace w' = trace w ++ evs /\
      Forall (fun e => forall x, In x (replied_ids (_data w)) -> ~ touches x e) evs) /\
  (forall x, In x (replied_ids (_data w)) -> In x (replied_ids (_data w'))).
Proof.
  induction comments as [|comment rest IH]; intros posted w Hroom w'.
  - unfold w', exec. simpl. split; [|auto].
    exists []. rewrite app_nil_r. split; [reflexivity | constructor].
  - unfold w', exec. cbn [reply_loop]. cbn [List.length] in Hroom.
    destruct (posted >=? max_replies config)%Z.
    + simpl. split; [|auto].
      exists []. rewrite app_nil_r. split; [reflexivity | constructor].
    + unfold bind, is_replied, get. cbn [fst snd].
      destruct (mem (id comment) (replied_ids (_data w))) eqn:Hmem.
      * apply IH. lia.
      * pose proof (attempt_unfold env replier comment w) as Hrun.
        destruct (posted_world_calm env replier comment w) as [Hd1 _].
        destruct (attempt_touches env replier comment w) as (evs1 & Ht1 & He1).
        unfold exec in Ht1.
        assert (Hnotin : ~ In (id comment) (replied_ids (_data w))).
        { intros Hin. apply mem_In in Hin. congruence. }
        assert (Hgrow : (forall x, In x (replied_ids (_data w)) ->
                                   In x (replied_ids (_data (snd (attempt env replier comment w))))) /\
                        List.length (replied_ids (_data (snd (attempt env replier comment w))))
                          <= S (List.length (replied_ids (_data w)))).
        { rewrite Hrun. destruct (posts env replier comment w); cbn [snd].
          - rewrite mark_replied_ids, Hd1, Hmem.
            rewrite last_n_short by (rewrite length_app; simpl; lia).
            split; [intros x Hx; apply in_or_app; now left|].
            rewrite length_app. simpl. lia.
          - rewrite Hd1. split; [auto | lia]. }
        clear Hrun.
        destruct Hgrow as [Hkeep Hlen].
        destruct (attempt env replier comment w) as [[posted1|e] w1];
          cbn [fst snd] in *.
        -- destruct (IH (posted + posted1)%Z w1 ltac:(lia)) as [(evs & Ht & He) Hkeep'].
           unfold exec in Ht, He, Hkeep'. split.
           ++ exists (evs1 ++ evs). split; [now rewrite Ht, Ht1, app_assoc|].
              apply Forall_app. split.
              ** eapply Forall_impl; [|exact He1].
                 intros e Hone x Hx Htouch. apply Hnotin.
                 now rewrite <- (Hone x Htouch).
              ** eapply Forall_impl; [|exact He].
                 intros e Hall x Hx. apply Hall, Hkeep, Hx.
           ++ intros x Hx. apply Hkeep', Hkeep, Hx.
        -- split; [|exact Hkeep].
           exists evs1. split; [exact Ht1|].
           eapply Forall_impl; [|exact He1].
           intros e0 Hone x Hx Htouch. apply Hnotin.
           now rewrite <- (Hone x Htouch).
Qed.

Lemma length_cycle_fetch env config w :
  List.length (fst (cycle_fetch env config w)) <= 100.
Proof.
  unfold cycle_fetch. destruct (String.eqb (mode config) "user").
  - rewrite user_loop_prefix.
    etransitivity; [apply length_take_while | apply length_items_limit].
  - rewrite subreddit_loop_filter.
    etransitivity; [apply filter_length_le | apply length_items_limit].
Qed.

(** X18. A cycle never answers a comment it has on record.  When the handled
    list holds at most 900 identifiers at the start of a cycle (so the at most
    100 comments of the cycle cannot push one out), no reply is generated for
    and no post is attempted on a comment whose identifier is in the list,
    and the list still holds every one of them at the end. *)
Theorem run_once_never_repeats (env : Env) (config : Config)
  (replier : Replier) (w : World) :
  snd (cycle_fetch env config w) = None ->
  List.length (replied_ids (_data w)) <= 900 ->
  let w' := exec (run_once env config replier) w in
  (exists evs,
      trace w' = trace w ++ evs /\
      forall x e, In x (replied_ids (_data w)) -> In e evs -> ~ touches x e) /\
  (forall x, In x (replied_ids (_data w)) -> In x (replied_ids (_data w'))).
Proof.
  intros Hfetch Hroom w'. unfold w', exec.
  rewrite (run_once_unfold env config replier w Hfetch). cbv zeta.
  pose proof (length_cycle_fetch env config w) as Hlen.
  destruct (@reply_loop_never_repeats env config replier
              (fst (cycle_fetch env config w)) 0%Z (fetched_world config w)
              ltac:(simpl; lia))
    as [(evs & Ht & He) Hkeep].
  destruct (reply_loop_step env config replier (fst (cycle_fetch env config w)) 0%Z
              (fetched_world config w)) as [[n Hres] _].
  unfold result, exec in *. rewrite Hres. cbn [snd].
  cbn [_data fetched_world count_fetch emit] in He, Hkeep.
  split.
  - unfold stamped. cbn [trace emit set_data]. rewrite Ht.
    cbn [trace fetched_world count_fetch emit].
    eexists ([_] ++ evs ++ [_]). split; [now rewrite <- !app_assoc|].
    intros x e Hx Hin.
    apply in_app_or in Hin as [[<-|[]]|Hin]; [intros []|].
    apply in_app_or in Hin as [Hin|[<-|[]]]; [|intros []].
    rewrite Forall_forall in He. now apply (He e Hin x).
  - intros x Hx. unfold stamped, replied_ids.
    cbn [_data emit set_data data_replied_ids]. now apply Hkeep.
Qed.

Lemma run_once_never_repeats_witness :
  let env := platform [] [Item (sample "c2" 6002 "b") (Item (sample "c1" 6001 "a") Done)] in
  let w := boot (Some {| data_last_run_time := Some 6000%Z;
                         data_replied_ids := Some ["c2"%string] |}) 7000 in
  let w' := exec (run_once env (watch_user "bob" false) pool3) w in
  replied_ids (_data w') = ["c2"; "c1"]%string /\
  exists evs,
    trace w' = trace w ++ evs /\
    forall e, In e evs -> ~ touches "c2" e.
Proof.
  intros env w w'. split; [reflexivity|].
  destruct (@run_once_never_repeats env (watch_user "bob" false) pool3 w eq_refl
              ltac:(simpl; lia)) as [(evs & Ht & He) _].
  exists evs. split; [exact Ht|].
  intros e Hin. apply (He "c2"%string e); [simpl; now left | exact Hin].
Defined.

(** ** config.py: accounts, keywords and overrides *)

Example str_of_range : map str (seq 2 4) = ["2"; "3"; "4"; "5"]%string.
Proof. reflexivity. Qed.

Lemma account_of_spec env suffix agent :
  List.length (account_of env suffix agent) <= 1 /\
  map username (account_of env suffix agent) =
    (if nonempty (env ("REDDIT_USERNAME" ++ suffix)%string)
     then [getenv env ("REDDIT_USERNAME" ++ suffix) ""] else []).
Proof.
  unfold account_of, getenv, nonempty.
  destruct (env ("REDDIT_USERNAME" ++ suffix)%string) as [[|a s]|]; simpl;
    split; try reflexivity; lia.
Qed.

(** X19. At most five accounts are loaded, the main one first and then those
    numbered 2 to 5, each one when its user-name variable is set and not
    empty, whatever the other variables are: an empty slot does not hide the
    slots after it, and no loaded account has an empty user name. *)
Theorem load_accounts_slots (env : environ) :
  List.length (load_accounts env) <= 5 /\
  map username (load_accounts env) =
    flat_map (fun name => if nonempty (env name) then [getenv env name ""] else [])
      ["REDDIT_USERNAME"; "REDDIT_USERNAME_2"; "REDDIT_USERNAME_3";
       "REDDIT_USERNAME_4"; "REDDIT_USERNAME_5"]%string /\
  Forall (fun a => username a <> EmptyString) (load_accounts env).
Proof.
  unfold load_accounts. cbn [seq flat_map].
  change (str 2) with "2"%string. change (str 3) with "3"%string.
  change (str 4) with "4"%string. change (str 5) with "5"%string.
  cbn [String.append].
  split; [|split].
  - rewrite !length_app. cbn [List.length].
    pose proof (proj1 (account_of_spec env "" "reddit-ai-replier/1.0")).
    pose proof (proj1 (account_of_spec env "_2" "reddit-ai-replier/1.0-2")).
    pose proof (proj1 (account_of_spec env "_3" "reddit-ai-replier/1.0-3")).
    pose proof (proj1 (account_of_spec env "_4" "reddit-ai-replier/1.0-4")).
    pose proof (proj1 (account_of_spec env "_5" "reddit-ai-replier/1.0-5")).
    lia.
  - rewrite !map_app. cbn [map].
    rewrite !(proj2 (account_of_spec env _ _)). reflexivity.
  - rewrite !Forall_app.
    assert (H : forall suffix agent,
               Forall (fun a => username a <> EmptyString)
                 (account_of env suffix agent)).
    { intros suffix agent. unfold account_of.
      destruct (env ("REDDIT_USERNAME" ++ suffix)%string) as [[|a s]|];
        repeat constructor. discriminate. }
    repeat split; try apply H; constructor.
Qed.

(** *** Keywords *)

Lemma matches_empty_keyword text keywords :
  In EmptyString keywords -> _matches_keywords text keywords = true.
Proof.
  intros Hin. unfold _matches_keywords. apply existsb_exists.
  exists EmptyString. split; [exact Hin|].
  now destruct (lower (chars text)).
Qed.

Lemma drop_while_all {A} (p : A -> bool) l :
  forallb p l = true -> drop_while p l = [].
Proof.
  induction l as [|x t IH]; simpl; [reflexivity|].
  intros H. apply andb_true_iff in H as [Hx H]. rewrite Hx. now apply IH.
Qed.

Lemma strip_blank s : forallb isspace s = true -> strip s = [].
Proof.
  intros H. unfold strip. now rewrite (drop_while_all _ _ H).
Qed.

Lemma length_split_on sep s :
  List.length (split_on sep s) = S (count_occ ascii_dec s sep).
Proof.
  induction s as [|c t IH]; [reflexivity|].
  cbn [split_on count_occ].
  destruct (Ascii.eqb_spec c sep) as [->|Hne].
  - destruct (ascii_dec sep sep); [|congruence]. cbn [List.length]. now rewrite IH.
  - destruct (ascii_dec c sep); [congruence|].
    destruct (split_on sep t); [discriminate IH | exact IH].
Qed.

(** X20. The keywords argument gives one keyword for each comma-separated
    segment, blank segments included.  A blank segment (as after a trailing
    comma) gives the empty keyword, and then every text passes the keyword
    test: the filter of forum mode lets every new comment through. *)
Theorem blank_keyword_matches_all (arg : string) :
  List.length (parse_keywords arg) = S (count_occ ascii_dec (chars arg) ","%char) /\
  (forall segment,
      In segment (split_on "," (chars arg)) ->
      forallb isspace segment = true ->
      forall text, _matches_keywords text (parse_keywords arg) = true).
Proof.
  split.
  - unfold parse_keywords. rewrite length_map. apply length_split_on.
  - intros segment Hin Hblank text. apply matches_empty_keyword.
    unfold parse_keywords. apply in_map_iff. exists segment.
    split; [|exact Hin]. now rewrite (strip_blank _ Hblank).
Qed.

Lemma blank_keyword_matches_all_witness :
  parse_keywords "rust, go," = ["rust"; "go"; ""]%string /\
  _matches_keywords "I love Python" (parse_keywords "rust, go,") = true.
Proof.
  split; [reflexivity|].
  apply (proj2 (blank_keyword_matches_all "rust, go,") []).
  - vm_compute. right. right. now left.
  - reflexivity.
Defined.

(** X21. A command-line value that is 0 or empty does not override the
    configuration: [--delay 0], [--max 0], [--interval 0] and an empty
    [--target] leave the values loaded from the environment, so a cap of 0
    replies cannot be asked for on the command line.  Any other value,
    negative ones included, replaces the loaded one; [loop] is always the
    flag of the command line. *)
Theorem zero_arguments_ignored (config : Settings) (args : Namespace) :
  (arg_delay args = Some 0%Z ->
   config_reply_delay (apply_args config args) = config_reply_delay config) /\
  (arg_max args = Some 0%Z ->
   max_replies (cycle (apply_args config args)) = max_replies (cycle config)) /\
  (arg_interval args = Some 0%Z ->
   sleep_duration (cycle (apply_args config args)) = sleep_duration (cycle config)) /\
  (arg_target args = Some EmptyString ->
   target (cycle (apply_args config args)) = target (cycle config)) /\
  (forall z, z <> 0%Z ->
     (arg_delay args = Some z -> config_reply_delay (apply_args config args) = z) /\
     (arg_max args = Some z -> max_replies (cycle (apply_args config args)) = z) /\
     (arg_interval args = Some z ->
      sleep_duration (cycle (apply_args config args)) = z)) /\
  loop (cycle (apply_args config args)) = arg_loop args.
Proof.
  unfold apply_args, override_int, override_str, nonzero, nonempty. cbn.
  repeat split; try (intros ->; reflexivity).
  all: intros H0; rewrite H0; apply Z.eqb_neq in H; now rewrite H.
Qed.

Lemma zero_arguments_ignored_witness :
  let env_config :=
    {| accounts := []; llm_provider := "openai"; openai_api_key := None;
       anthropic_api_key := None; ollama_base_url := ""; ollama_model := "";
       cycle := watch_user "bob" false; config_reply_delay := 10;
       prompt_file := "prompts/default.txt" |} in
  let args :=
    {| arg_mode := None; arg_target := Some EmptyString; arg_keywords := None;
       arg_llm := None; arg_interval := Some (-5)%Z; arg_delay := Some 0%Z;
       arg_max := Some 0%Z; arg_loop := true; arg_prompt := None |} in
  config_reply_delay (apply_args env_config args) = 10%Z /\
  max_replies (cycle (apply_args env_config args)) = 10%Z /\
  target (cycle (apply_args env_config args)) = "bob"%string /\
  sleep_duration (cycle (apply_args env_config args)) = (-5)%Z.
Proof.
  intros env_config args.
  destruct (zero_arguments_ignored env_config args)
    as (Hdelay & Hmax & _ & Htarget & Hother & _).
  split; [exact (Hdelay eq_refl)|]. split; [exact (Hmax eq_refl)|].
  split; [exact (Htarget eq_refl)|].
  apply (Hother (-5)%Z); [discriminate | reflexivity].
Defined.

(** ** reddit_bot.py: start-up and the pool *)

Lemma filter_nil_iff {A} (f : A -> bool) l :
  filter f l = [] <-> forall x, In x l -> f x = false.
Proof.
  induction l as [|a l IH]; simpl.
  - split; [intros _ x [] | reflexivity].
  - destruct (f a) eqn:E.
    + split; [discriminate|]. intros H. specialize (H a (or_introl eq_refl)). congruence.
    + rewrite IH. split.
      * intros H x [<-|Hx]; [exact E | now apply H].
      * intros H x Hx. apply H. now right.
Qed.

(** X22. Once the configuration is loaded, the rest of the start-up of
    [main], from its checks to the construction of the monitor and the
    replier, exits exactly when no account is configured, no target is given,
    or no account logs in, and then always with code 1.  Otherwise the pool
    of the replier is the list of the accounts that logged in, in the order
    of the configuration (so it is not empty), the monitor reads through the
    first of them, and the replier gets the configured delay.  (The loading
    of the configuration itself, where [argparse] can exit and [int] can
    raise, comes before and is not part of [startup].) *)
Theorem startup_pool (config : Settings) (login : RedditAccount -> bool) :
  (forall code, startup config login = Exit code -> code = 1%Z) /\
  (startup config login = Exit 1 <->
   accounts config = [] \/ target (cycle config) = EmptyString \/
   forall a, In a (accounts config) -> login a = false) /\
  (forall monitor replier,
      startup config login = Started monitor replier ->
      instances replier = map username (filter login (accounts config)) /\
      nth_error (instances replier) 0 = Some monitor /\
      0 < List.length (instances replier) /\
      reply_delay replier = config_reply_delay config).
Proof.
  unfold startup.
  destruct (accounts config) as [|a rest] eqn:Ha.
  - split; [intros code H; now inversion H|].
    split; [split; [now left | reflexivity] | discriminate].
  - destruct (String.eqb_spec (target (cycle config)) "") as [Ht|Ht].
    + split; [intros code H; now inversion H|].
      split; [split; [right; now left | reflexivity] | discriminate].
    + destruct (filter login (a :: rest)) as [|b logged] eqn:Hf.
      * split; [intros code H; now inversion H|].
        split; [|discriminate].
        split; [|reflexivity]. intros _. right. right.
        now apply filter_nil_iff.
      * cbn [map].
        split; [discriminate|]. split.
        -- split; [discriminate|].
           intros [H|[H|H]]; [discriminate | contradiction|].
           apply filter_nil_iff in H. congruence.
        -- intros monitor replier H. inversion H; subst.
           cbn. repeat split. lia.
Qed.

Lemma startup_pool_witness :
  let account name :=
    {| username := name; password := ""; client_id := ""; client_secret := "";
       user_agent := "reddit-ai-replier/1.0" |} in
  let config :=
    {| accounts := [account "alice"; account "bob"; account "carol"]%string;
       llm_provider := "openai"; openai_api_key := None;
       anthropic_api_key := None; ollama_base_url := ""; ollama_model := "";
       cycle := watch_user "dave" false; config_reply_delay := 10;
       prompt_file := "prompts/default.txt" |} in
  let login a := negb (String.eqb (username a) "alice") in
  let replier := {| instances := ["bob"; "carol"]%string; reply_delay := 10 |} in
  startup config login = Started "bob"%string replier /\
  instances replier = map username (filter login (accounts config)) /\
  nth_error (instances replier) 0 = Some "bob"%string /\
  reply_delay replier = config_reply_delay config.
Proof.
  intros account config login replier.
  split; [reflexivity|].
  destruct (proj2 (proj2 (startup_pool config login)) "bob"%string replier eq_refl)
    as (Hpool & Hfirst & _ & Hdelay).
  split; [exact Hpool|]. split; [exact Hfirst | exact Hdelay].
Defined.

(** *** The rotation stays in the pool *)

Lemma attempt_index env replier comment w :
  _current_index w < List.length (instances replier) ->
  _current_index (exec (attempt env replier comment) w)
    < List.length (instances replier).
Proof.
  intros Hi. unfold exec, attempt, try_, bind, generate_reply, bind, get, modify.
  cbn [fst snd]. fold (generated comment w).
  destruct (llm_generate env (generations w) comment) as [text|]; [|exact Hi].
  cbn [ret].
  assert (Hnth : nth_error (instances replier) (_current_index (generated comment w)) =
                 Some (nth (_current_index w) (instances replier) EmptyString))
    by now apply nth_error_nth'.
  destruct (post_reply_selects env replier comment text (generated comment w) Hnth)
    as [Hidx _].
  unfold exec in Hidx.
  assert (H1 : _current_index (snd (post_reply env replier comment text
                                      (generated comment w)))
               < List.length (instances replier)).
  { rewrite Hidx. apply Nat.mod_upper_bound. lia. }
  destruct (post_reply env replier comment text (generated comment w))
    as [[[|]|e] w1]; cbn [fst snd] in *; try exact H1.
  destruct (mem (id comment) (replied_ids (_data w1))) eqn:Hmem.
  - now rewrite (mark_replied_known (id comment) w1 Hmem).
  - now rewrite (mark_replied_new (id comment) w1 Hmem).
Qed.

Lemma reply_loop_index env config replier comments : forall posted w,
  _current_index w < List.length (instances replier) ->
  _current_index (exec (reply_loop env config replier comments posted) w)
    < List.length (instances replier).
Proof.
  induction comments as [|comment rest IH]; intros posted w Hi; [exact Hi|].
  unfold exec in *. cbn [reply_loop].
  destruct (posted >=? max_replies config)%Z; [exact Hi|].
  unfold bind, is_replied, get. cbn [fst snd].
  destruct (mem (id comment) (replied_ids (_data w))); [now apply IH|].
  pose proof (attempt_index env replier comment w Hi) as H1.
  destruct (attempt_step env replier comment w) as [[posted1 Hres] _].
  unfold result, exec in Hres, H1.
  destruct (attempt env replier comment w) as [o w1]. cbn [fst snd] in *. subst o.
  now apply IH.
Qed.

Lemma run_once_index env config replier w :
  _current_index w < List.length (instances replier) ->
  _current_index (exec (run_once env config replier) w)
    < List.length (instances replier).
Proof.
  intros Hi. unfold exec.
  destruct (snd (cycle_fetch env config w)) as [e|] eqn:Hfetch.
  - now rewrite (run_once_fetch_fails env config replier w Hfetch).
  - rewrite (run_once_unfold env config replier w Hfetch). cbv zeta.
    pose proof (@reply_loop_index env config replier
                  (fst (cycle_fetch env config w)) 0%Z (fetched_world config w) Hi)
      as H1.
    unfold exec in H1.
    destruct (reply_loop env config replier (fst (cycle_fetch env config w)) 0%Z
                (fetched_world config w)) as [[n|e] w1]; exact H1.
Qed.

(** X23. The rotation never leaves the pool.  In a process that passed the
    start-up, however many cycles it has run, the rotation index points into
    the pool; so the next [post_reply] finds its session and makes at least
    one post attempt. *)
Theorem rotation_stays_in_pool (settings : Settings)
  (login : RedditAccount -> bool) (monitor : Reddit) (replier : Replier)
  (env : Env) (fuel : nat) (file : option data) (clock : Z) :
  startup settings login = Started monitor replier ->
  let w := snd (main env (cycle settings) replier fuel (boot file clock)) in
  _current_index w < List.length (instances replier) /\
  forall comment text,
    S (replies w) <= replies (exec (post_reply env replier comment text) w).
Proof.
  intros Hstart w.
  assert (Hpool : 0 < List.length (instances replier)).
  { unfold startup in Hstart.
    destruct (accounts settings); [discriminate|].
    destruct (String.eqb (target (cycle settings)) ""); [discriminate|].
    destruct (map username (filter login (r :: l))) eqn:E; [discriminate|].
    inversion Hstart; subst. simpl. lia. }
  assert (Hinv : forall n w0,
             _current_index w0 < List.length (instances replier) ->
             _current_index (snd (main env (cycle settings) replier n w0))
               < List.length (instances replier)).
  { induction n as [|n IH]; intros w0 H0; [exact H0|].
    cbn [main].
    pose proof (run_once_index env (cycle settings) replier w0 H0) as H1.
    unfold exec in H1.
    destruct (run_once env (cycle settings) replier w0) as [[k|e] w1];
      cbn [snd] in *; [|exact H1].
    destruct (negb (loop (cycle settings))); [exact H1|].
    unfold sleep. destruct (sleep_duration (cycle settings) <? 0)%Z; [exact H1|].
    apply IH. exact H1. }
  assert (Hw : _current_index w < List.length (instances replier))
    by (apply Hinv; exact Hpool).
  split; [exact Hw|].
  intros comment text.
  assert (Hnth : nth_error (instances replier) (_current_index w) =
                 Some (nth (_current_index w) (instances replier) EmptyString))
    by now apply nth_error_nth'.
  destruct (post_reply_extends env replier comment text w Hnth) as ((evs & _) & _).
  unfold exec. rewrite (post_reply_run env replier comment text w Hnth). cbv zeta.
  set (w1 := count_reply _).
  assert (H1 : replies w1 = S (replies w)) by reflexivity.
  pose proof (fun items => retry_rounds_bound env comment text items 3 w1) as Hretry.
  cbv zeta in Hretry. unfold exec in Hretry.
  destruct (comment_reply env (replies w)) as [[|items| | | | |]|]; cbn [snd];
    try lia.
  - destruct (Hretry items) as (ds & _ & Hr & _). lia.
  - destruct (reply_delay replier <? 0)%Z; cbn [snd replies advance emit]; lia.
Qed.

Lemma rotation_stays_in_pool_witness :
  let account name :=
    {| username := name; password := ""; client_id := ""; client_secret := "";
       user_agent := "reddit-ai-replier/1.0" |} in
  let settings :=
    {| accounts := [account "alice"; account "bob"]%string;
       llm_provider := "openai"; openai_api_key := None;
       anthropic_api_key := None; ollama_base_url := ""; ollama_model := "";
       cycle := watch_user "dave" true; config_reply_delay := 10;
       prompt_file := "prompts/default.txt" |} in
  let replier := {| instances := ["alice"; "bob"]%string; reply_delay := 10 |} in
  let env := platform [] [Item (sample "c1" 6001 "a") Done; Done] in
  let w := snd (main env (cycle settings) replier 2 (boot None 7000)) in
  _current_index w = 1 /\
  _current_index w < 2 /\
  1 <= replies (exec (post_reply env replier (sample "c2" 7100 "b") "hi") w) - replies w.
Proof.
  intros account settings replier env w.
  destruct (@rotation_stays_in_pool settings (fun _ => true) "alice"%string replier
              env 2 None 7000%Z eq_refl) as [Hidx Hpost].
  split; [reflexivity|]. split; [exact Hidx|].
  specialize (Hpost (sample "c2" 7100 "b") "hi"%string). fold w in Hpost. lia.
Defined.

(** ** monitor.py: the early stop of user mode *)

Lemma take_while_sorted since l :
  newest_first l -> take_while (newer since) l = filter (newer since) l.
Proof.
  induction 1 as [|c l Hsorted IH Hc]; [reflexivity|].
  simpl. destruct (newer since c) eqn:E; [now rewrite IH|].
  symmetry. apply filter_nil_iff. intros x Hx.
  rewrite Forall_forall in Hc. specialize (Hc x Hx).
  unfold newer in *. rewrite Z.gtb_ltb in *.
  apply Z.ltb_ge in E. apply Z.ltb_ge. lia.
Qed.

(** X24. The early stop of user mode misses nothing when the platform lists
    the comments newest first: the fetch then yields every comment created
    after the cursor among the (at most 100) comments listed before the
    listing ends or breaks. *)
Theorem user_mode_misses_nothing (env : Env) (username : string) (since : Z)
  (w : World) :
  let listed :=
    items_of (limit 100 (redditor_comments_new env username (fetches w))) in
  newest_first listed ->
  exists g w',
    get_user_comments env username since w = (Ret g, w') /\
    fst g = filter (newer since) listed /\
    forall c, In c listed -> (since < created_utc c)%Z -> In c (fst g).
Proof.
  intros listed Hsorted. eexists _, _. split; [reflexivity|].
  assert (H : fst (user_loop (limit 100 (redditor_comments_new env username (fetches w)))
                     since) = filter (newer since) listed).
  { rewrite user_loop_prefix. now apply take_while_sorted. }
  split; [exact H|].
  intros c Hin Hnew. cbn [fst] in *. rewrite H. apply filter_In.
  split; [exact Hin | now apply newer_lt].
Qed.

Lemma user_mode_misses_nothing_witness :
  let l := Item (sample "c3" 1003 "c") (Item (sample "c2" 1002 "b")
             (Item (sample "c1" 999 "a") Done)) in
  exists g w',
    get_user_comments (platform [] [l]) "bob" 1000 (boot None 0) = (Ret g, w') /\
    fst g = [sample "c3" 1003 "c"; sample "c2" 1002 "b"].
Proof.
  intros l.
  destruct (@user_mode_misses_nothing (platform [] [l]) "bob" 1000 (boot None 0))
    as (g & w' & Hrun & Hg & _).
  - repeat constructor; simpl; lia.
  - exists g, w'. split; [exact Hrun | exact Hg].
Defined.

(** ** The state file on a disk that can fail *)

(** *** On a disk that takes every write, nothing changes *)

Lemma writable_save w : Disk.save writable w = save w.
Proof. reflexivity. Qed.

Lemma writable_update_run_time w :
  Disk.update_run_time writable w = update_run_time w.
Proof. reflexivity. Qed.

Lemma writable_mark_replied comment_id w :
  Disk.mark_replied writable comment_id w = mark_replied comment_id w.
Proof. reflexivity. Qed.

Lemma writable_attempt env replier comment w :
  Disk.attempt writable env replier comment w = attempt env replier comment w.
Proof. reflexivity. Qed.

Lemma writable_reply_loop env config replier comments : forall posted w,
  Disk.reply_loop writable env config replier comments posted w =
  reply_loop env config replier comments posted w.
Proof.
  induction comments as [|comment rest IH]; intros posted w; [reflexivity|].
  cbn [Disk.reply_loop reply_loop].
  destruct (posted >=? max_replies config)%Z; [reflexivity|].
  unfold bind. destruct (is_replied (id comment) w) as [[[]|e] w1];
    try apply IH; try reflexivity.
  rewrite writable_attempt.
  destruct (attempt env replier comment w1) as [[n|e] w2]; [apply IH | reflexivity].
Qed.

Lemma writable_run_once env config replier w :
  Disk.run_once writable env config replier w = run_once env config replier w.
Proof.
  unfold Disk.run_once, run_once, bind.
  destruct (last_run_time w) as [[since|e] w0]; [|reflexivity].
  match goal with
  | |- context [if ?b then ?x else ?y] => destruct ((if b then x else y) w0) as [[comments|e] w1]
  end; [|reflexivity].
  rewrite writable_reply_loop.
  destruct (reply_loop env config replier comments 0%Z w1) as [[n|e] w2];
    reflexivity.
Qed.

Lemma writable_main env config replier fuel : forall w,
  Disk.main writable env config replier fuel w = main env config replier fuel w.
Proof.
  induction fuel as [|fuel IH]; intros w; [reflexivity|].
  cbn [Disk.main main]. rewrite writable_run_once.
  destruct (run_once env config replier w) as [[n|e] w1]; [|reflexivity].
  destruct (negb (loop config)); [reflexivity|].
  destruct (sleep (sleep_duration config) w1) as [[[]|e] w2]; [apply IH | reflexivity].
Qed.

(** *** Writes, and what they leave on the disk *)

Lemma saves_app a b : saves (a ++ b) = saves a ++ saves b.
Proof. unfold saves. apply flat_map_app. Qed.

Lemma writes_app a b : writes (a ++ b) = writes a + writes b.
Proof. unfold writes. now rewrite filter_app, length_app. Qed.

Lemma file_after_app f a b :
  file_after f (a ++ b) = file_after (file_after f a) b.
Proof. unfold file_after. apply fold_left_app. Qed.

Lemma quiet_saves evs : quiet evs -> saves evs = [].
Proof.
  induction 1 as [|e evs He _ IH]; [reflexivity|].
  destruct e; simpl in *; try discriminate; exact IH.
Qed.

Lemma quiet_writes evs : quiet evs -> writes evs = 0.
Proof.
  unfold writes. induction 1 as [|e evs He _ IH]; [reflexivity|].
  cbn [filter]. now rewrite He.
Qed.

Lemma quiet_file f evs : quiet evs -> file_after f evs = f.
Proof.
  induction 1 as [|e evs He _ IH]; [reflexivity|].
  destruct e; simpl in *; try discriminate; exact IH.
Qed.

Lemma calm_keeps f w w' :
  calm w w' ->
  _data w' = _data w /\
  saves (trace w') = saves (trace w) /\
  writes (trace w') = writes (trace w) /\
  file_after f (trace w') = file_after f (trace w).
Proof.
  intros (Hd & evs & -> & Hq).
  rewrite saves_app, writes_app, file_after_app.
  rewrite (quiet_saves Hq), (quiet_writes Hq), (quiet_file _ Hq), app_nil_r.
  repeat split; [exact Hd | lia].
Qed.

Lemma saved_fields answer w :
  let w' := snd (saved answer w) in
  _data w' = _data w /\
  writes (trace w') = S (writes (trace w)) /\
  saves (trace w') =
    saves (trace w) ++ match answer with Written => [_data w] | _ => [] end /\
  forall f,
    file_after f (trace w') =
    match answer with
    | Written => Object (_data w)
    | Refused => file_after f (trace w)
    | Torn => NotJSON
    end.
Proof.
  destruct answer; cbn [saved snd trace _data emit];
    rewrite saves_app, writes_app; cbn; rewrite ?app_nil_r;
    (repeat split; try lia; intros f; now rewrite file_after_app).
Qed.

Lemma disk_save_run disk w :
  Disk.save disk w = saved (disk (writes (trace w))) w.
Proof.
  unfold Disk.save, saved, bind, get, modify, raise. cbn [fst snd].
  now destruct (disk (writes (trace w))).
Qed.

Lemma disk_update_run_time_run disk w :
  Disk.update_run_time disk w =
  saved (disk (writes (trace w)))
    (set_data {| data_last_run_time := Some (now w);
                 data_replied_ids := data_replied_ids (_data w) |} w).
Proof.
  unfold Disk.update_run_time, bind, modify. now rewrite disk_save_run.
Qed.

Lemma disk_mark_replied_new disk comment_id w :
  mem comment_id (replied_ids (_data w)) = false ->
  Disk.mark_replied disk comment_id w =
  saved (disk (writes (trace w)))
    (set_data {| data_last_run_time := data_last_run_time (_data w);
                 data_replied_ids :=
                   Some (keep 1000 (replied_ids (_data w) ++ [comment_id])) |} w).
Proof.
  intros Hmem. unfold Disk.mark_replied, bind, get, modify, ret.
  cbv beta iota zeta. cbn [fst snd _data set_data]. rewrite Hmem.
  now rewrite disk_save_run.
Qed.

Lemma disk_mark_replied_known disk comment_id w :
  mem comment_id (replied_ids (_data w)) = true ->
  Disk.mark_replied disk comment_id w = (Ret tt, w).
Proof.
  intros Hmem. rewrite <- (mark_replied_known comment_id w Hmem).
  unfold Disk.mark_replied, mark_replied, bind, get, modify, ret.
  cbv beta iota zeta. now rewrite Hmem.
Qed.

Lemma saved_met f answer (c : M unit) w w0 :
  c w = saved answer w0 ->
  writes (trace w0) = writes (trace w) ->
  file_after f (trace w0) = file_after f (trace w) ->
  write_met f answer c w.
Proof.
  intros Hrun Hw Hf. unfold write_met, exec, result, reloaded. rewrite Hrun.
  destruct (saved_fields answer w0) as (Hd & Hwr & _ & Hfile).
  cbv zeta in Hd, Hwr, Hfile. rewrite Hwr, Hw, (Hfile f).
  split; [reflexivity|].
  destruct answer; cbn [saved fst snd _data emit Disk._load];
    (split; [reflexivity|]); try reflexivity.
  now rewrite Hf.
Qed.

(** X3. The state store changes the state in memory before it writes the
    file, so the memory is changed as on a disk that takes every write,
    whatever the disk answers.  [update_run_time] and [mark_replied] of a new
    identifier make one attempt to write the file: when it succeeds they
    return and a restart would load the state in memory; when the write is
    refused they raise [OSError] and a restart would load what it would have
    loaded before, an older state; when the file is torn they raise
    [OSError] and a restart would load the fresh state: cursor 0 and an empty
    handled list.  [mark_replied] of a known identifier does not write. *)
Theorem state_store_persists (disk : nat -> write_result) (f : state_file)
  (w : World) (comment_id : string) :
  let answer := disk (writes (trace w)) in
  (_data (exec (Disk.update_run_time disk) w) = _data (exec update_run_time w) /\
   write_met f answer (Disk.update_run_time disk) w) /\
  (mem comment_id (replied_ids (_data w)) = false ->
   _data (exec (Disk.mark_replied disk comment_id) w) =
     _data (exec (mark_replied comment_id) w) /\
   write_met f answer (Disk.mark_replied disk comment_id) w) /\
  (mem comment_id (replied_ids (_data w)) = true ->
   Disk.mark_replied disk comment_id w = (Ret tt, w)).
Proof.
  intros answer. split; [|split].
  - split.
    + unfold exec. rewrite disk_update_run_time_run.
      now destruct (disk (writes (trace w))).
    + eapply saved_met; [apply disk_update_run_time_run | reflexivity | reflexivity].
  - intros Hmem. split.
    + unfold exec. rewrite (disk_mark_replied_new disk comment_id w Hmem).
      rewrite (mark_replied_new comment_id w Hmem).
      now destruct (disk (writes (trace w))).
    + eapply saved_met;
        [apply (disk_mark_replied_new disk comment_id w Hmem) | reflexivity | reflexivity].
  - apply disk_mark_replied_known.
Qed.

(** A disk that tears the file at the first write: the identifier is in
    memory, the call raises, and a restart would begin from the fresh state
    although the file held a cursor and a handled list. *)
Lemma state_store_persists_witness :
  let d := {| data_last_run_time := Some 1000%Z;
              data_replied_ids := Some ["k1"; "k2"]%string |} in
  let w := boot (Some d) 2000 in
  let tearing := fun n : nat => Torn in
  let w' := exec (Disk.mark_replied tearing "k3") w in
  reloaded (Object d) w = Ret d /\
  replied_ids (_data w') = ["k1"; "k2"; "k3"]%string /\
  result (Disk.mark_replied tearing "k3") w = Raise OSError /\
  reloaded (Object d) w' = Ret fresh /\
  Disk.mark_replied tearing "k1" w = (Ret tt, w).
Proof.
  intros d w tearing w'.
  destruct (state_store_persists tearing (Object d) w "k3") as (_ & Hnew & _).
  destruct (Hnew eq_refl) as (_ & _ & Hres & Hfile).
  destruct (state_store_persists tearing (Object d) w "k1") as (_ & _ & Hknown).
  split; [reflexivity|]. split; [reflexivity|]. split; [exact Hres|].
  split; [exact Hfile | exact (Hknown eq_refl)].
Defined.

(** *** One comment *)

Lemma disk_attempt_unfold disk env replier comment w :
  Disk.attempt disk env replier comment w =
  if posts env replier comment w then
    match Disk.mark_replied disk (id comment) (posted_world env replier comment w) with
    | (Ret _, w2) => (Ret 1%Z, w2)
    | (Raise _, w2) => (Ret 0%Z, w2)
    end
  else (Ret 0%Z, posted_world env replier comment w).
Proof.
  unfold Disk.attempt, posts, posted_world, result, exec, try_, bind,
    generate_reply, bind, get, modify.
  cbn [fst snd]. fold (generated comment w).
  destruct (llm_generate env (generations w) comment) as [text|]; [|reflexivity].
  cbn [ret].
  destruct (post_reply env replier comment text (generated comment w))
    as [[[|]|e] w1]; cbn [fst snd]; try reflexivity.
  destruct (Disk.mark_replied disk (id comment) w1) as [[[]|e] w2]; reflexivity.
Qed.

(** The [try] block on a comment that is not on record, when the post
    succeeds: the record is made in memory, and the disk decides the rest. *)
Lemma disk_attempt_posted disk env replier comment w :
  mem (id comment) (replied_ids (_data w)) = false ->
  posts env replier comment w = true ->
  let w1 := posted_world env replier comment w in
  let d := {| data_last_run_time := data_last_run_time (_data w);
              data_replied_ids :=
                Some (keep 1000 (replied_ids (_data w) ++ [id comment])) |} in
  Disk.attempt disk env replier comment w =
  (match disk (writes (trace w)) with Written => Ret 1%Z | _ => Ret 0%Z end,
   snd (saved (disk (writes (trace w))) (set_data d w1))).
Proof.
  intros Hmem Hposts w1 d.
  destruct (calm_keeps Missing (posted_world_calm env replier comment w))
    as (Hd1 & _ & Hw1 & _).
  rewrite disk_attempt_unfold, Hposts. fold w1 in Hd1, Hw1 |- *.
  rewrite disk_mark_replied_new by now rewrite Hd1.
  rewrite Hw1, Hd1. fold d.
  now destruct (disk (writes (trace w))).
Qed.

(** X11. For a comment that is not on record, the [try] block of [run_once]
    remembers the comment in memory exactly when the generation answers and
    [post_reply] returns [True]; it then makes one attempt to write the state
    file.  The reply is counted, the block returns 1, only when that write
    succeeds: when it fails the exception is swallowed with the others, the
    block returns 0 and nothing new is on the disk, although the reply has
    been posted and the comment is in the list in memory.  In every other
    case (generation failure, refused or failed post, exception out of the
    poster) the block returns 0, the state is as it was and no write is
    attempted. *)
Theorem attempt_records (disk : nat -> write_result) (env : Env)
  (replier : Replier) (comment : Comment) (w : World) :
  mem (id comment) (replied_ids (_data w)) = false ->
  let w' := exec (Disk.attempt disk env replier comment) w in
  (posts env replier comment w = true ->
   replied_ids (_data w') = last_n 1000 (replied_ids (_data w) ++ [id comment]) /\
   data_last_run_time (_data w') = data_last_run_time (_data w) /\
   writes (trace w') = S (writes (trace w)) /\
   match disk (writes (trace w)) with
   | Written =>
       result (Disk.attempt disk env replier comment) w = Ret 1%Z /\
       saves (trace w') = saves (trace w) ++ [_data w']
   | _ =>
       result (Disk.attempt disk env replier comment) w = Ret 0%Z /\
       saves (trace w') = saves (trace w)
   end) /\
  (posts env replier comment w = false ->
   result (Disk.attempt disk env replier comment) w = Ret 0%Z /\
   _data w' = _data w /\
   writes (trace w') = writes (trace w) /\
   saves (trace w') = saves (trace w)).
Proof.
  intros Hmem w'. unfold w', result, exec.
  destruct (calm_keeps Missing (posted_world_calm env replier comment w))
    as (Hd1 & Hs1 & Hw1 & _).
  split; intros Hposts.
  - rewrite (disk_attempt_posted disk env replier comment w Hmem Hposts).
    cbv zeta. cbn [fst snd].
    match goal with
    | |- context [saved ?a ?w0] =>
        destruct (saved_fields a w0) as (Hd & Hwr & Hs & _)
    end.
    cbv zeta in Hd, Hwr, Hs. cbn [trace _data set_data] in Hd, Hwr, Hs.
    rewrite Hd, Hwr, Hs, Hw1, Hs1.
    split; [unfold replied_ids at 1; cbn [data_replied_ids]; apply keep_last_n|].
    split; [reflexivity|]. split; [reflexivity|].
    destruct (disk (writes (trace w))); split; try reflexivity; apply app_nil_r.
  - rewrite disk_attempt_unfold, Hposts. cbn [fst snd]. now repeat split.
Qed.

Lemma attempt_records_witness :
  let c := sample "c1" 1001 "I love Rust" in
  let w := boot None 5000 in
  let refusing := fun n : nat => Refused in
  result (Disk.attempt writable (platform [None] []) pool3 c) w = Ret 1%Z /\
  result (Disk.attempt refusing (platform [None] []) pool3 c) w = Ret 0%Z /\
  replied_ids (_data (exec (Disk.attempt refusing (platform [None] []) pool3 c) w))
    = ["c1"%string] /\
  saves (trace (exec (Disk.attempt refusing (platform [None] []) pool3 c) w)) = [] /\
  result (Disk.attempt writable (platform [Some Forbidden] []) pool3 c) w = Ret 0%Z /\
  _data (exec (Disk.attempt writable (platform [Some Forbidden] []) pool3 c) w)
    = _data w.
Proof.
  intros c w refusing.
  destruct (@attempt_records writable (platform [None] []) pool3 c w eq_refl)
    as [Hyes _].
  destruct (@attempt_records refusing (platform [None] []) pool3 c w eq_refl)
    as [Hfail _].
  destruct (@attempt_records writable (platform [Some Forbidden] []) pool3 c w eq_refl)
    as [_ Hno].
  destruct (Hyes eq_refl) as (_ & _ & _ & H1 & _).
  destruct (Hfail eq_refl) as (H2 & _ & _ & H3 & H4).
  destruct (Hno eq_refl) as (H5 & H6 & _).
  split; [exact H1|]. split; [exact H3|]. split; [exact H2|].
  split; [exact H4|]. split; [exact H5 | exact H6].
Defined.

(** *** One cycle *)

Lemma disk_attempt_counts disk env replier comment w :
  mem (id comment) (replied_ids (_data w)) = false ->
  let w' := exec (Disk.attempt disk env replier comment) w in
  (result (Disk.attempt disk env replier comment) w = Ret 1%Z /\
   saves (trace w') = saves (trace w) ++ [_data w']) \/
  (result (Disk.attempt disk env replier comment) w = Ret 0%Z /\
   saves (trace w') = saves (trace w)).
Proof.
  intros Hmem w'. unfold w', result, exec.
  destruct (calm_keeps Missing (posted_world_calm env replier comment w))
    as (Hd1 & Hs1 & Hw1 & _).
  destruct (posts env replier comment w) eqn:Hposts.
  - rewrite (disk_attempt_posted disk env replier comment w Hmem Hposts).
    cbv zeta. cbn [fst snd].
    match goal with
    | |- context [saved ?a ?w0] =>
        destruct (saved_fields a w0) as (Hd & _ & Hs & _)
    end.
    cbv zeta in Hd, Hs. cbn [trace _data set_data] in Hd, Hs.
    rewrite Hd, Hs, Hs1.
    destruct (disk (writes (trace w))); [left | right | right];
      split; try reflexivity; apply app_nil_r.
  - right. rewrite disk_attempt_unfold, Hposts. cbn [fst snd]. now split.
Qed.

(** What the reply loop returns and writes: it always comes to its end, and
    the replies it has counted are those whose record reached the disk. *)
Lemma disk_reply_loop_records disk env config replier comments : forall posted w,
  let w' := exec (Disk.reply_loop disk env config replier comments posted) w in
  exists n ds,
    result (Disk.reply_loop disk env config replier comments posted) w = Ret n /\
    (posted <= n <= Z.max posted (max_replies config))%Z /\
    saves (trace w') = saves (trace w) ++ ds /\
    Z.of_nat (List.length ds) = (n - posted)%Z.
Proof.
  induction comments as [|comment rest IH]; intros posted w w'.
  - exists posted, []. unfold w', result, exec. simpl. rewrite app_nil_r.
    repeat split; lia.
  - unfold w', result, exec. cbn [Disk.reply_loop].
    destruct (Z.geb_spec posted (max_replies config)) as [Hcap|Hcap].
    + exists posted, []. simpl. rewrite app_nil_r. repeat split; lia.
    + unfold bind, is_replied, get. cbn [fst snd].
      destruct (mem (id comment) (replied_ids (_data w))) eqn:Hmem.
      * destruct (IH posted w) as (n & ds & Hres & Hn & Hs & Hlen).
        exists n, ds. repeat split; try assumption; lia.
      * destruct (disk_attempt_counts disk env replier comment w Hmem)
          as [[Hres1 Hs1]|[Hres1 Hs1]];
          unfold result, exec in Hres1, Hs1;
          destruct (Disk.attempt disk env replier comment w) as [o w1];
          cbn [fst snd] in *; subst o.
        -- destruct (IH (posted + 1)%Z w1) as (n & ds & Hres & Hn & Hs & Hlen).
           unfold result, exec in Hres, Hs.
           exists n, (_data w1 :: ds).
           split; [exact Hres|]. split; [lia|].
           split; [now rewrite Hs, Hs1, <- app_assoc|].
           cbn [List.length]. lia.
        -- destruct (IH (posted + 0)%Z w1) as (n & ds & Hres & Hn & Hs & Hlen).
           unfold result, exec in Hres, Hs.
           exists n, ds.
           split; [exact Hres|]. split; [lia|].
           split; [now rewrite Hs, Hs1 | lia].
Qed.


(** A cycle whose fetch succeeds: the reply loop, then the write of the
    cursor, which the disk answers. *)
Lemma disk_run_once_unfold disk env config replier w :
  snd (cycle_fetch env config w) = None ->
  exists n w1,
    Disk.reply_loop disk env config replier (fst (cycle_fetch env config w)) 0%Z
      (fetched_world config w) = (Ret n, w1) /\
    Disk.run_once disk env config replier w =
    (match disk (writes (trace w1)) with
     | Written => Ret n
     | _ => Raise OSError
     end,
     snd (saved (disk (writes (trace w1)))
            (set_data {| data_last_run_time := Some (now w1);
                         data_replied_ids := data_replied_ids (_data w1) |} w1))).
Proof.
  intros H.
  destruct (disk_reply_loop_records disk env config replier
              (fst (cycle_fetch env config w)) 0%Z (fetched_world config w))
    as (n & _ & Hres & _).
  unfold result in Hres.
  destruct (Disk.reply_loop disk env config replier (fst (cycle_fetch env config w))
              0%Z (fetched_world config w)) as [o w1] eqn:Hloop.
  cbn [fst] in Hres. subst o. exists n, w1. split; [reflexivity|].
  revert Hloop H.
  unfold cycle_fetch, fetched_world, Disk.run_once, bind, last_run_time, get.
  cbn [fst snd]. fold (cursor w).
  destruct (String.eqb (mode config) "user"); intros Hloop H;
    unfold list_, get_user_comments, get_subreddit_comments, bind, get, modify, ret;
    cbn [fst snd fetches emit]; rewrite H; cbv zeta; rewrite Hloop;
    rewrite disk_update_run_time_run;
    now destruct (disk (writes (trace w1))).
Qed.

(** X12. A cycle whose fetch succeeds runs its reply loop to the end and then
    writes the cursor.  It returns when that last write succeeds, and raises
    [OSError] when it fails.  Its count [n] lies between 0 and [max_replies]
    (it is 0 when [max_replies] is negative) and is the number of writes that
    succeeded during the loop, one for each counted reply.  When the cycle
    returns, the state file has been written [n + 1] times and the last write
    holds the state in memory. *)
Theorem run_once_counts (disk : nat -> write_result) (env : Env)
  (config : Config) (replier : Replier) (w : World) :
  snd (cycle_fetch env config w) = None ->
  let w' := exec (Disk.run_once disk env config replier) w in
  exists n ds,
    (0 <= n <= Z.max 0 (max_replies config))%Z /\
    Z.of_nat (List.length ds) = n /\
    match result (Disk.run_once disk env config replier) w with
    | Ret m =>
        m = n /\
        saves (trace w') = saves (trace w) ++ ds ++ [_data w'] /\
        disk (writes (trace w') - 1) = Written
    | Raise e =>
        e = OSError /\
        saves (trace w') = saves (trace w) ++ ds /\
        disk (writes (trace w') - 1) <> Written
    end.
Proof.
  intros Hfetch w'. unfold w', result, exec.
  destruct (disk_run_once_unfold disk env config replier w Hfetch)
    as (n & w1 & Hloop & ->).
  destruct (disk_reply_loop_records disk env config replier
              (fst (cycle_fetch env config w)) 0%Z (fetched_world config w))
    as (n' & ds & Hres & Hn & Hs & Hlen).
  unfold result, exec in Hres, Hs. rewrite Hloop in Hres, Hs.
  cbn [fst snd] in Hres, Hs. inversion Hres; subst n'.
  assert (Hs0 : saves (trace w1) = saves (trace w) ++ ds).
  { rewrite Hs. unfold fetched_world. cbn [trace emit count_fetch].
    rewrite saves_app. simpl. now rewrite app_nil_r. }
  exists n, ds. split; [exact Hn|]. split; [lia|].
  cbn [fst snd].
  match goal with
  | |- context [saved ?a ?w0] =>
      destruct (saved_fields a w0) as (Hd & Hwr & Hsv & _)
  end.
  cbv zeta in Hd, Hwr, Hsv. cbn [trace _data set_data] in Hd, Hwr, Hsv.
  rewrite Hwr, Hsv, Hd, Hs0. replace (S (writes (trace w1)) - 1) with (writes (trace w1)) by lia.
  destruct (disk (writes (trace w1))) eqn:Ha.
  - split; [reflexivity|]. split; [now rewrite <- app_assoc | reflexivity].
  - split; [reflexivity|]. split; [apply app_nil_r | discriminate].
  - split; [reflexivity|]. split; [apply app_nil_r | discriminate].
Qed.

(** Three new comments on a disk that refuses the first write: the three
    replies are posted, two are counted, and the identifier whose write was
    refused reaches the disk with the next write. *)
Lemma run_once_counts_witness :
  let env := platform []
               [Item (sample "c3" 6003 "c") (Item (sample "c2" 6002 "b")
                  (Item (sample "c1" 6001 "a") Done))] in
  let disk := fun n => match n with 0 => Refused | _ => Written end in
  let w := boot None 7000 in
  let w' := exec (Disk.run_once disk env (watch_user "bob" false) pool3) w in
  result (Disk.run_once disk env (watch_user "bob" false) pool3) w = Ret 2%Z /\
  replies w' = 3 /\
  map replied_ids (saves (trace w')) =
    [["c3"; "c2"]; ["c3"; "c2"; "c1"]; ["c3"; "c2"; "c1"]]%string /\
  exists n ds,
    (0 <= n <= 10)%Z /\
    Z.of_nat (List.length ds) = n /\
    saves (trace w') = ds ++ [_data w'].
Proof.
  intros env disk w w'.
  split; [reflexivity|]. split; [reflexivity|]. split; [reflexivity|].
  destruct (@run_once_counts disk env (watch_user "bob" false) pool3 w eq_refl)
    as (n & ds & Hn & Hlen & Hres).
  fold w' in Hres.
  change (result (Disk.run_once disk env (watch_user "bob" false) pool3) w)
    with (@Ret Z 2%Z) in Hres.
  destruct Hres as (_ & Hs & _).
  exists n, ds. split; [exact Hn|]. split; [exact Hlen | exact Hs].
Defined.

(** The cap of [max_replies] bounds the replies that are counted, not those
    that are posted: with a cap of 1 and a disk that refuses the first write,
    two replies are posted. *)
Example cap_passed_on_refused_write :
  let env := platform []
               [Item (sample "c3" 6003 "c") (Item (sample "c2" 6002 "b")
                  (Item (sample "c1" 6001 "a") Done))] in
  let disk := fun n => match n with 0 => Refused | _ => Written end in
  let config := {| mode := "user"; target := "bob"; keywords := [];
                   sleep_duration := 30; max_replies := 1; loop := false |} in
  let w' := exec (Disk.run_once disk env config pool3) (boot None 7000) in
  result (Disk.run_once disk env config pool3) (boot None 7000) = Ret 1%Z /\
  replies w' = 2 /\
  replied_ids (_data w') = ["c3"; "c2"]%string.
Proof. repeat split. Qed.

(** *** The run loop *)






(** A failed write of the cursor ends the process, in continuous mode too;
    and after a torn write a restart begins from the fresh state. *)
Example torn_cursor_write_ends_process :
  let env := platform [] [Item (sample "c1" 6001 "a") Done; Done] in
  let disk := fun n => match n with 1 => Torn | _ => Written end in
  let run := Disk.main disk env (watch_user "bob" true) pool3 5 (boot None 7000) in
  fst run = Uncaught OSError /\
  replied_ids (_data (snd run)) = ["c1"%string] /\
  cursor (snd run) = 7010%Z /\
  reloaded Missing (snd run) = Ret fresh.
Proof. repeat split. Qed.

(** A state file that is not text keeps the program from starting. *)
Example undecodable_file_stops_startup :
  forall clock, Disk.boot NotText clock = Raise ValueError.
Proof. reflexivity. Qed.
